(** * Bootstrap-and-serve core of the backend service

    A shallow embedding of the Express backend (server.js): bounded-retry
    acquisition of the PostgreSQL pool and of the Redis client, the readiness
    and detailed-health endpoints, the cache-aside read of [/api/users], the
    SIGTERM handler and the startup sequence.

    The program is effectful, so it is embedded in a small monad [M] that
    threads a [World] (the two global handles, the clock, the Redis keyspace
    and a script of replies of the outside world), may throw a JavaScript
    error or terminate the process, and records what it does as a list of
    [Event]s.

    What is assumed of the outside world:
    - every awaited call on the pool or on the Redis client is one suspension
      point; it takes the next reply of the script, which says how long the
      call lasts and whether it resolves or rejects;
    - [redisClient.isOpen] is read from the script and may change at
      suspension points only;
    - a Redis entry is seen until its absolute expiry time; a [setEx] that
      rejects leaves the keyspace as it was; nothing else writes the key;
    - [process.exit] ends the run; [console], the metrics and [res.json] do
      not throw. *)

From Stdlib Require Import Ascii.
From stdpp Require Import gmap strings list fin_maps pretty.

Local Open Scope string_scope.
Local Open Scope list_scope.
Local Open Scope Z_scope.

(** ** JavaScript values the program handles *)

(** An [Error] object: [error.message] is all the program ever reads. *)
Record JsError := mkError { err_name : string; message : string }.

(** The built-ins the program calls and that are not part of its source. *)
Class JsRuntime := {
  (** JSON-serialisable data: the rows of the store, a parsed cache entry *)
  JsValue : Type;
  (** [parseInt(s)]; [None] is [NaN] *)
  parseInt : string -> option Z;
  (** [JSON.parse(s)]: the [SyntaxError] it throws, or the value *)
  JSON_parse : string -> JsError + JsValue;
  (** [JSON.stringify(v)] on serialisable data *)
  JSON_stringify : JsValue -> string;
}.

(** [parseInt(process.env.X)]: an unset variable is [undefined], which parses
    to [NaN]. *)
Definition parseInt_env `{JsRuntime} (v : option string) : option Z :=
  match v with
  | Some s => parseInt s
  | None => None
  end.

(** [n || d] on numbers: [NaN] and [0] are falsy. *)
Definition num_or (n : option Z) (d : Z) : Z :=
  match n with
  | Some 0 => d
  | Some z => z
  | None => d
  end.

(** [s || d] on an environment string: [undefined] and [''] are falsy. *)
Definition str_or (s : option string) (d : string) : string :=
  match s with
  | Some "" => d
  | Some v => v
  | None => d
  end.

(** [process.env.X || 5432]: the string of the environment or a number. *)
Definition str_or_num (s : option string) (d : Z) : string + Z :=
  match s with
  | Some "" => inr d
  | Some v => inl v
  | None => inr d
  end.

(** ** Handles *)

Record PoolConfig := {
  pc_host : string;
  pc_port : string + Z;
  pc_database : string;
  pc_user : string;
  pc_password : string;
  pc_max : Z;
  pc_idleTimeoutMillis : Z;
  pc_connectionTimeoutMillis : Z;
}.

(** A [pg.Pool]. *)
Record Pool := { pool_config : PoolConfig }.

Record SocketConfig := {
  sc_host : string;
  sc_port : string + Z;
  sc_connectTimeout : Z;
}.

(** A client made by [redis.createClient]. *)
Record RedisClient := { client_socket : SocketConfig }.

(** ** Events *)

(** The lines written with [console.log], [console.warn] and
    [console.error], each kept as a tag with the values it interpolates. *)
Inductive LogMsg :=
| LogDbAttempt (attempt maxRetries : Z)
| LogDbConnected
| LogDbFailed (attempt : Z) (msg : string)
| LogRetrying (retryDelay : Z)
| LogRedisAttempt (attempt maxRetries : Z)
| LogRedisConnected
| LogRedisFailed (attempt : Z) (msg : string)
| WarnNoRedis
| LogAllConnections
| ErrInitFailed (e : JsError)
| LogServingFromCache
| LogRedisCacheError (msg : string)
| LogFailedToCache (msg : string)
| LogServingFromDb
| ErrFetchingUsers (e : JsError)
| LogSigterm
| LogDbClosed
| LogRedisClosed
| LogServerRunning (port : string + Z)
| LogMetricsAt (port : string + Z)
| LogHealthAt (port : string + Z)
| LogReadyAt (port : string + Z)
| LogDetailedAt (port : string + Z)
| ErrStartFailed (e : JsError).

Inductive RedisCmd :=
| CmdPing
| CmdGet (key : string)
| CmdSetEx (key : string) (seconds : Z) (value : string)
| CmdQuit.

Inductive Event :=
| EvLog (m : LogMsg)
| EvNewPool (cfg : PoolConfig)
(** [pool.query(sql)] and whether it resolved *)
| EvQuery (sql : string) (ok : bool)
| EvPoolEnd (ok : bool)
(** [databaseConnectionRetries.inc()] *)
| EvRetryInc
(** [await new Promise(resolve => setTimeout(resolve, ms))] *)
| EvSleep (ms : Z)
| EvCreateClient (cfg : SocketConfig)
| EvRedisConnect (ok : bool)
(** a command on the client, the value of [isOpen] when it was issued, and
    whether it resolved *)
| EvRedis (cmd : RedisCmd) (wasOpen : bool) (ok : bool)
| EvTimerStart
| EvTimerEnd (method route : string) (code : Z)
| EvObserve (operation table : string) (ms : Z)
| EvListen (port : string + Z)
| EvExit (code : Z).

(** ** The world *)

Section World.
Context `{JsRuntime}.

(** Reply of the store to one call on a pool. *)
Record PgReply := {
  pg_elapsed : Z;
  pg_result : JsError + JsValue;
}.

(** Reply of the cache to one call on a client. *)
Record RedisReply := {
  rd_elapsed : Z;
  rd_error : option JsError;
}.

Record World := {
  (** the globals [let pool; let redisClient;] *)
  pool : option Pool;
  redisClient : option RedisClient;
  (** [process.env] *)
  env : string -> option string;
  (** [Date.now()] *)
  now : Z;
  (** suspension points passed, store calls made and cache calls made so far *)
  ticks : nat;
  pg_calls : nat;
  redis_calls : nat;
  (** the cache's keyspace: value and absolute expiry time *)
  redis_data : gmap string (string * Z);
  (** the script of the outside world: reply to the n-th store call, to the
      n-th cache call, and [redisClient.isOpen] after n suspension points *)
  pg_reply : nat -> PgReply;
  redis_reply : nat -> RedisReply;
  redis_open_at : nat -> bool;
}.

Definition set_pool (p : option Pool) (w : World) : World :=
  {| pool := p; redisClient := redisClient w; env := env w; now := now w;
     ticks := ticks w; pg_calls := pg_calls w; redis_calls := redis_calls w;
     redis_data := redis_data w; pg_reply := pg_reply w;
     redis_reply := redis_reply w; redis_open_at := redis_open_at w |}.

Definition set_redisClient (c : option RedisClient) (w : World) : World :=
  {| pool := pool w; redisClient := c; env := env w; now := now w;
     ticks := ticks w; pg_calls := pg_calls w; redis_calls := redis_calls w;
     redis_data := redis_data w; pg_reply := pg_reply w;
     redis_reply := redis_reply w; redis_open_at := redis_open_at w |}.

(** One suspension point that lasts [ms] milliseconds. *)
Definition suspend (ms : Z) (w : World) : World :=
  {| pool := pool w; redisClient := redisClient w; env := env w;
     now := now w + ms;
     ticks := S (ticks w); pg_calls := pg_calls w; redis_calls := redis_calls w;
     redis_data := redis_data w; pg_reply := pg_reply w;
     redis_reply := redis_reply w; redis_open_at := redis_open_at w |}.

Definition count_pg_call (w : World) : World :=
  {| pool := pool w; redisClient := redisClient w; env := env w; now := now w;
     ticks := ticks w; pg_calls := S (pg_calls w); redis_calls := redis_calls w;
     redis_data := redis_data w; pg_reply := pg_reply w;
     redis_reply := redis_reply w; redis_open_at := redis_open_at w |}.

Definition count_redis_call (w : World) : World :=
  {| pool := pool w; redisClient := redisClient w; env := env w; now := now w;
     ticks := ticks w; pg_calls := pg_calls w; redis_calls := S (redis_calls w);
     redis_data := redis_data w; pg_reply := pg_reply w;
     redis_reply := redis_reply w; redis_open_at := redis_open_at w |}.

Definition set_redis_data (d : gmap string (string * Z)) (w : World) : World :=
  {| pool := pool w; redisClient := redisClient w; env := env w; now := now w;
     ticks := ticks w; pg_calls := pg_calls w; redis_calls := redis_calls w;
     redis_data := d; pg_reply := pg_reply w;
     redis_reply := redis_reply w; redis_open_at := redis_open_at w |}.

(** ** The monad *)

Inductive Outcome (A : Type) : Type :=
| Returned (a : A)
| Thrown (e : JsError)
| Exited (code : Z).
Global Arguments Returned {A} a.
Global Arguments Thrown {A} e.
Global Arguments Exited {A} code.

Record Run (A : Type) : Type := mkRun {
  outcome : Outcome A;
  after : World;
  emitted : list Event;
}.
Global Arguments mkRun {A} _ _ _.
Global Arguments outcome {A} _.
Global Arguments after {A} _.
Global Arguments emitted {A} _.

Definition M (A : Type) : Type := World -> Run A.

Definition ret {A} (a : A) : M A := fun w => mkRun (Returned a) w [].

Definition bind {A B} (m : M A) (k : A -> M B) : M B := fun w =>
  match m w with
  | mkRun (Returned a) w1 ev1 =>
      match k a w1 with
      | mkRun o w2 ev2 => mkRun o w2 (ev1 ++ ev2)
      end
  | mkRun (Thrown e) w1 ev1 => mkRun (Thrown e) w1 ev1
  | mkRun (Exited c) w1 ev1 => mkRun (Exited c) w1 ev1
  end.

(** [throw e] *)
Definition throw {A} (e : JsError) : M A := fun w => mkRun (Thrown e) w [].

(** [try { m } catch (error) { h error }] *)
Definition try_catch {A} (m : M A) (h : JsError -> M A) : M A := fun w =>
  match m w with
  | mkRun (Thrown e) w1 ev1 =>
      match h e w1 with
      | mkRun o w2 ev2 => mkRun o w2 (ev1 ++ ev2)
      end
  | r => r
  end.

Definition emit (e : Event) : M unit := fun w => mkRun (Returned tt) w [e].
Definition console (m : LogMsg) : M unit := emit (EvLog m).

(** [process.exit(code)]: nothing of the program runs afterwards. *)
Definition process_exit {A} (code : Z) : M A := fun w =>
  mkRun (Exited code) w [EvExit code].

Definition read {A} (f : World -> A) : M A := fun w =>
  mkRun (Returned (f w)) w [].

Definition write (f : World -> World) : M unit := fun w =>
  mkRun (Returned tt) (f w) [].

End World.

Declare Scope js_scope.
Delimit Scope js_scope with js.
Notation "x <- m ;; k" := (bind m (fun x => k))
  (at level 100, m at next level, right associativity) : js_scope.
Notation "m ;; k" := (bind m (fun _ => k))
  (at level 100, right associativity) : js_scope.
Local Open Scope js_scope.

(** ** Primitives: clock, timers, store and cache calls *)

Section Primitives.
Context `{JsRuntime}.

Definition Date_now : M Z := read now.

(** [setTimeout] runs a delay below 1 or above 2^31-1 as 1 millisecond. *)
Definition timer_delay (ms : Z) : Z :=
  if (ms <? 1) || (2147483647 <? ms) then 1 else ms.

(** [await new Promise(resolve => setTimeout(resolve, ms))] *)
Definition sleep (ms : Z) : M unit :=
  emit (EvSleep ms);; write (suspend (timer_delay ms)).

(** [new Pool(cfg)]: no connection is made yet. *)
Definition new_Pool (cfg : PoolConfig) : M Pool :=
  emit (EvNewPool cfg);; ret {| pool_config := cfg |}.

(** One awaited call on a pool: the next reply of the script decides. *)
Definition pg_call (ev : bool -> Event) : M JsValue := fun w =>
  let reply := pg_reply w (pg_calls w) in
  let w' := suspend (pg_elapsed reply) (count_pg_call w) in
  match pg_result reply with
  | inl e => mkRun (Thrown e) w' [ev false]
  | inr v => mkRun (Returned v) w' [ev true]
  end.

(** [await pool.query(sql)], giving [result.rows] *)
Definition pool_query (p : Pool) (sql : string) : M JsValue :=
  pg_call (EvQuery sql).

(** [await pool.end()] *)
Definition pool_end (p : Pool) : M unit :=
  pg_call EvPoolEnd;; ret tt.

(** [redis.createClient(cfg)] *)
Definition createClient (cfg : SocketConfig) : M RedisClient :=
  emit (EvCreateClient cfg);; ret {| client_socket := cfg |}.

(** [client.isOpen] *)
Definition isOpen (c : RedisClient) : M bool :=
  read (fun w => redis_open_at w (ticks w)).

(** One awaited call on a client: the next reply of the script decides. *)
Definition redis_call (ev : bool -> Event) : M unit := fun w =>
  let reply := redis_reply w (redis_calls w) in
  let w' := suspend (rd_elapsed reply) (count_redis_call w) in
  match rd_error reply with
  | Some e => mkRun (Thrown e) w' [ev false]
  | None => mkRun (Returned tt) w' [ev true]
  end.

(** [await client.connect()] *)
Definition redis_connect (c : RedisClient) : M unit :=
  redis_call EvRedisConnect.

(** A command on a connected client; the event keeps [isOpen] as it was when
    the command was issued. *)
Definition redis_command (c : RedisClient) (cmd : RedisCmd) : M unit :=
  o <- isOpen c;; redis_call (EvRedis cmd o).

(** An entry is only seen before its expiry time. *)
Definition live_entry (key : string) (w : World) : option string :=
  match redis_data w !! key with
  | Some (v, expiresAt) => if now w <? expiresAt then Some v else None
  | None => None
  end.

(** [await client.ping()] *)
Definition redis_ping (c : RedisClient) : M unit := redis_command c CmdPing.

(** [await client.get(key)]; [None] is [null] *)
Definition redis_get (c : RedisClient) (key : string) : M (option string) :=
  redis_command c (CmdGet key);; read (live_entry key).

(** [await client.setEx(key, seconds, value)] *)
Definition redis_setEx (c : RedisClient) (key : string) (seconds : Z)
    (value : string) : M unit :=
  redis_command c (CmdSetEx key seconds value);;
  write (fun w =>
    set_redis_data
      (<[key := (value, now w + seconds * 1000)]> (redis_data w)) w).

(** [await client.quit()] *)
Definition redis_quit (c : RedisClient) : M unit := redis_command c CmdQuit.

(** [JSON.parse(s)] as a computation that may throw *)
Definition json_parse (s : string) : M JsValue :=
  match JSON_parse s with
  | inl e => throw e
  | inr v => ret v
  end.

End Primitives.

(** ** The program *)

Section Program.
Context `{JsRuntime}.

(** *** connectToDatabaseWithRetry *)

Definition db_pool_config (e : string -> option string) : PoolConfig :=
  {| pc_host := str_or (e "DB_HOST") "localhost";
     pc_port := str_or_num (e "DB_PORT") 5432;
     pc_database := str_or (e "DB_NAME") "mydatabase";
     pc_user := str_or (e "DB_USER") "myuser";
     pc_password := str_or (e "DB_PASSWORD") "mypassword";
     pc_max := 20;
     pc_idleTimeoutMillis := 30000;
     pc_connectionTimeoutMillis := 5000 |}.

(** The body of the loop: [inl pool] is [return pool], [inr error] is the end
    of the [catch] block, with [lastError = error]. *)
Definition db_attempt (maxRetries retryDelay attempt : Z)
    : M (Pool + JsError) :=
  try_catch
    (console (LogDbAttempt attempt maxRetries);;
     e <- read env;;
     pool <- new_Pool (db_pool_config e);;
     pool_query pool "SELECT 1";;
     console LogDbConnected;;
     ret (inl pool))
    (fun error =>
     emit EvRetryInc;;
     console (LogDbFailed attempt (message error));;
     (if attempt <? maxRetries
      then console (LogRetrying retryDelay);; sleep retryDelay
      else ret tt);;
     ret (inr error)).

(** The error made by [new Error(`Failed ... ${lastError.message}`)] after
    the loop; with no [lastError], reading its [message] is a [TypeError]. *)
Definition exhausted_error (maxRetries : Z) (lastError : option JsError)
    : JsError :=
  match lastError with
  | Some e =>
      mkError "Error"
        ("Failed to connect to database after " +:+ pretty maxRetries +:+
         " attempts. Last error: " +:+ message e)
  | None =>
      mkError "TypeError"
        "Cannot read properties of undefined (reading 'message')"
  end.

Definition db_exhausted (maxRetries : Z) (lastError : option JsError)
    : M Pool :=
  throw (exhausted_error maxRetries lastError).

(** [for (let attempt = ...; attempt <= maxRetries; attempt++)], from the
    current [attempt]; [fuel] bounds the iterations left. *)
Fixpoint db_loop (fuel : nat) (maxRetries retryDelay attempt : Z)
    (lastError : option JsError) : M Pool :=
  match fuel with
  | O => db_exhausted maxRetries lastError
  | S fuel' =>
      if attempt <=? maxRetries then
        r <- db_attempt maxRetries retryDelay attempt;;
        match r with
        | inl pool => ret pool
        | inr error =>
            db_loop fuel' maxRetries retryDelay (attempt + 1) (Some error)
        end
      else db_exhausted maxRetries lastError
  end.

Definition db_maxRetries (e : string -> option string) : Z :=
  num_or (parseInt_env (e "DATABASE_RETRY_ATTEMPTS")) 10.

Definition db_retryDelay (e : string -> option string) : Z :=
  num_or (parseInt_env (e "DATABASE_RETRY_DELAY")) 5000.

Definition connectToDatabaseWithRetry : M Pool :=
  e <- read env;;
  let maxRetries := db_maxRetries e in
  let retryDelay := db_retryDelay e in
  db_loop (Z.to_nat maxRetries) maxRetries retryDelay 1 None.

(** *** connectToRedisWithRetry *)

Definition redis_socket_config (e : string -> option string) : SocketConfig :=
  {| sc_host := str_or (e "REDIS_HOST") "localhost";
     sc_port := str_or_num (e "REDIS_PORT") 6379;
     sc_connectTimeout := 5000 |}.

(** The body of the loop: [Some client] is [return redisClient], [None] is
    the end of the [catch] block. *)
Definition redis_attempt (maxRetries retryDelay attempt : Z)
    : M (option RedisClient) :=
  try_catch
    (console (LogRedisAttempt attempt maxRetries);;
     e <- read env;;
     redisClient <- createClient (redis_socket_config e);;
     redis_connect redisClient;;
     console LogRedisConnected;;
     ret (Some redisClient))
    (fun error =>
     console (LogRedisFailed attempt (message error));;
     (if attempt <? maxRetries
      then console (LogRetrying retryDelay);; sleep retryDelay
      else ret tt);;
     ret None).

(** After the loop: warn and [return null]. *)
Definition redis_exhausted : M (option RedisClient) :=
  console WarnNoRedis;; ret None.

Fixpoint redis_loop (fuel : nat) (maxRetries retryDelay attempt : Z)
    : M (option RedisClient) :=
  match fuel with
  | O => redis_exhausted
  | S fuel' =>
      if attempt <=? maxRetries then
        r <- redis_attempt maxRetries retryDelay attempt;;
        match r with
        | Some client => ret (Some client)
        | None => redis_loop fuel' maxRetries retryDelay (attempt + 1)
        end
      else redis_exhausted
  end.

Definition connectToRedisWithRetry : M (option RedisClient) :=
  let maxRetries := 3 in
  let retryDelay := 3000 in
  redis_loop (Z.to_nat maxRetries) maxRetries retryDelay 1.

(** *** initializeConnections *)

Definition initializeConnections : M unit :=
  try_catch
    (p <- connectToDatabaseWithRetry;;
     write (set_pool (Some p));;
     c <- connectToRedisWithRetry;;
     write (set_redisClient c);;
     console LogAllConnections)
    (fun error =>
     console (ErrInitFailed error);;
     process_exit 1).

(** *** Responses *)

(** One entry of [healthCheck.checks]. *)
Record Check := {
  chk_status : string;
  chk_responseTime : option string;
  chk_error : option string;
}.

(** The [healthCheck] object; [hc_timestamp] is the instant that
    [new Date().toISOString()] prints. *)
Record HealthCheck := {
  hc_status : string;
  hc_timestamp : Z;
  hc_checks : gmap string Check;
}.

Definition set_status (s : string) (h : HealthCheck) : HealthCheck :=
  {| hc_status := s; hc_timestamp := hc_timestamp h;
     hc_checks := hc_checks h |}.

Definition set_check (k : string) (c : Check) (h : HealthCheck) : HealthCheck :=
  {| hc_status := hc_status h; hc_timestamp := hc_timestamp h;
     hc_checks := <[k := c]> (hc_checks h) |}.

(** [{ status: 'Connected', responseTime: `${ms}ms` }] *)
Definition check_connected (ms : Z) : Check :=
  {| chk_status := "Connected";
     chk_responseTime := Some (pretty ms +:+ "ms");
     chk_error := None |}.

(** [{ status: s }] *)
Definition check_status (s : string) : Check :=
  {| chk_status := s; chk_responseTime := None; chk_error := None |}.

(** [{ status: 'Error', error: msg }] *)
Definition check_error (msg : string) : Check :=
  {| chk_status := "Error"; chk_responseTime := None; chk_error := Some msg |}.

(** What is handed to [res.json]. *)
Inductive Body :=
| BodyStatus (status service : string) (timestamp : Z)
| BodyHealth (h : HealthCheck)
| BodyError (error : string)
| BodyJson (v : JsValue).

Record Response := { res_status : Z; res_body : Body }.

(** [res.status(code).json(body)] *)
Definition res_status_json (code : Z) (body : Body) : Response :=
  {| res_status := code; res_body := body |}.

(** [res.json(body)]: the status stays at its default, 200. *)
Definition res_json (body : Body) : Response := res_status_json 200 body.

Record Request := { method : string }.

(** [redisClient && redisClient.isOpen]: the client when the guard holds. *)
Definition redis_guard : M (option RedisClient) :=
  c <- read redisClient;;
  match c with
  | Some client =>
      o <- isOpen client;;
      ret (if o then Some client else None)
  | None => ret None
  end.

(** *** GET /health *)

Definition health (req : Request) : M Response :=
  t <- Date_now;;
  ret (res_status_json 200 (BodyStatus "OK" "backend" t)).

(** *** The two dependency checks shared by /ready and /api/health *)

(** The database block; [failed] is the status written when the check
    fails. *)
Definition check_database (failed : string) (healthCheck : HealthCheck)
    : M HealthCheck :=
  try_catch
    (dbStart <- Date_now;;
     p <- read pool;;
     match p with
     | Some pool =>
         pool_query pool "SELECT 1";;
         t <- Date_now;;
         ret (set_check "database" (check_connected (t - dbStart)) healthCheck)
     | None =>
         ret (set_status failed
                (set_check "database" (check_status "Not Initialized")
                   healthCheck))
     end)
    (fun error =>
     ret (set_status failed
            (set_check "database" (check_error (message error)) healthCheck))).

(** The Redis block: it never writes the status. *)
Definition check_redis (healthCheck : HealthCheck) : M HealthCheck :=
  try_catch
    (redisStart <- Date_now;;
     c <- redis_guard;;
     match c with
     | Some client =>
         redis_ping client;;
         t <- Date_now;;
         ret (set_check "redis" (check_connected (t - redisStart)) healthCheck)
     | None =>
         ret (set_check "redis" (check_status "Not Available") healthCheck)
     end)
    (fun error =>
     ret (set_check "redis" (check_error (message error)) healthCheck)).

(** *** GET /ready *)

Definition ready (req : Request) : M Response :=
  t <- Date_now;;
  let healthCheck :=
    {| hc_status := "READY"; hc_timestamp := t; hc_checks := ∅ |} in
  healthCheck <- check_database "NOT_READY" healthCheck;;
  healthCheck <- check_redis healthCheck;;
  let statusCode :=
    if String.eqb (hc_status healthCheck) "READY" then 200 else 503 in
  ret (res_status_json statusCode (BodyHealth healthCheck)).

(** *** GET /api/health *)

Definition api_health (req : Request) : M Response :=
  t <- Date_now;;
  let healthCheck :=
    {| hc_status := "OK"; hc_timestamp := t; hc_checks := ∅ |} in
  healthCheck <- check_database "Error" healthCheck;;
  healthCheck <- check_redis healthCheck;;
  ret (res_json (BodyHealth healthCheck)).

(** *** GET /api/users *)

Definition cacheKey : string := "users:all".

(** The cache read: [Some response] is the [return res.json(...)] of a hit,
    [None] falls through to the store. *)
Definition users_cache_read (req : Request) (dbStart : Z)
    : M (option Response) :=
  c <- redis_guard;;
  match c with
  | Some client =>
      try_catch
        (cachedUsers <- redis_get client cacheKey;;
         match cachedUsers with
         | Some "" => ret None
         | Some cached =>
             console LogServingFromCache;;
             emit (EvTimerEnd (method req) "/api/users" 200);;
             t <- Date_now;;
             emit (EvObserve "cache_hit" "users" (t - dbStart));;
             v <- json_parse cached;;
             ret (Some (res_json (BodyJson v)))
         | None => ret None
         end)
        (fun redisError =>
         console (LogRedisCacheError (message redisError));;
         ret None)
  | None => ret None
  end.

(** The cache write after a store read. *)
Definition users_cache_write (rows : JsValue) : M unit :=
  c <- redis_guard;;
  match c with
  | Some client =>
      try_catch
        (redis_setEx client cacheKey 300 (JSON_stringify rows))
        (fun redisError =>
         console (LogFailedToCache (message redisError)))
  | None => ret tt
  end.

Definition api_users (req : Request) : M Response :=
  emit EvTimerStart;;
  dbStart <- Date_now;;
  try_catch
    (p <- read pool;;
     match p with
     | None =>
         emit (EvTimerEnd (method req) "/api/users" 503);;
         ret (res_status_json 503 (BodyError "Database not available"))
     | Some pool =>
         hit <- users_cache_read req dbStart;;
         match hit with
         | Some response => ret response
         | None =>
             rows <- pool_query pool "SELECT * FROM users ORDER BY id";;
             users_cache_write rows;;
             console LogServingFromDb;;
             t <- Date_now;;
             emit (EvObserve "select" "users" (t - dbStart));;
             emit (EvTimerEnd (method req) "/api/users" 200);;
             ret (res_json (BodyJson rows))
         end
     end)
    (fun error =>
     console (ErrFetchingUsers error);;
     emit (EvTimerEnd (method req) "/api/users" 500);;
     ret (res_status_json 500 (BodyError "Internal server error"))).

(** *** process.on('SIGTERM') *)

Definition on_SIGTERM : M unit :=
  console LogSigterm;;
  p <- read pool;;
  match p with
  | Some pool => pool_end pool;; console LogDbClosed
  | None => ret tt
  end;;
  c <- redis_guard;;
  match c with
  | Some client => redis_quit client;; console LogRedisClosed
  | None => ret tt
  end;;
  process_exit 0.

(** *** Startup: initializeConnections().then(listen).catch(exit 1) *)

Definition PORT (e : string -> option string) : string + Z :=
  str_or_num (e "PORT") 5000.

(** [app.listen(port, callback)] *)
Definition app_listen (port : string + Z) : M unit :=
  emit (EvListen port);;
  console (LogServerRunning port);;
  console (LogMetricsAt port);;
  console (LogHealthAt port);;
  console (LogReadyAt port);;
  console (LogDetailedAt port).

Definition main : M unit :=
  try_catch
    (initializeConnections;;
     e <- read env;;
     app_listen (PORT e))
    (fun error =>
     console (ErrStartFailed error);;
     process_exit 1).

End Program.

(** ** Reading traces and scripts *)

(** The store calls of a trace, each with whether it resolved. *)
Definition store_calls (tr : list Event) : list bool :=
  omap (fun e => match e with EvQuery _ ok => Some ok | _ => None end) tr.

(** The delays of the timers awaited in a trace. *)
Definition waits (tr : list Event) : list Z :=
  omap (fun e => match e with EvSleep ms => Some ms | _ => None end) tr.

(** The cache connection attempts of a trace, each with whether it resolved. *)
Definition cache_connects (tr : list Event) : list bool :=
  omap (fun e => match e with EvRedisConnect ok => Some ok | _ => None end) tr.

(** The ports on which a trace opens the HTTP listener. *)
Definition listens (tr : list Event) : list (string + Z) :=
  omap (fun e => match e with EvListen port => Some port | _ => None end) tr.

(** The exit codes of a trace. *)
Definition exits (tr : list Event) : list Z :=
  omap (fun e => match e with EvExit code => Some code | _ => None end) tr.

(** The commands a trace issues on the cache client, each with the value of
    [isOpen] when it was issued. *)
Definition cache_commands (tr : list Event) : list (RedisCmd * bool) :=
  omap (fun e =>
          match e with EvRedis cmd o _ => Some (cmd, o) | _ => None end) tr.

(** The handles a trace releases, in order. *)
Inductive Dependency := Store | Cache.

Definition releases (tr : list Event) : list Dependency :=
  omap (fun e =>
          match e with
          | EvPoolEnd _ => Some Store
          | EvRedis CmdQuit _ _ => Some Cache
          | _ => None
          end) tr.

Section Script.
Context `{JsRuntime}.

(** The result of the [i]-th store call from now on. *)
Definition store_reply_at (w : World) (i : nat) : JsError + JsValue :=
  pg_result (pg_reply w (pg_calls w + i)%nat).

(** The error of the [i]-th cache call from now on. *)
Definition cache_error_at (w : World) (i : nat) : option JsError :=
  rd_error (redis_reply w (redis_calls w + i)%nat).

(** The world after the next store call, and after the next cache call. *)
Definition after_store_call (w : World) : World :=
  suspend (pg_elapsed (pg_reply w (pg_calls w))) (count_pg_call w).

Definition after_cache_call (w : World) : World :=
  suspend (rd_elapsed (redis_reply w (redis_calls w))) (count_redis_call w).

(** The world after a failed attempt on the store: one more store call, and
    the wait when one is made. *)
Definition after_failed_attempt (maxRetries retryDelay attempt : Z) (w : World)
    : World :=
  if attempt <? maxRetries
  then suspend (timer_delay retryDelay) (after_store_call w)
  else after_store_call w.

(** The same for a failed attempt on the cache. *)
Definition after_failed_connect (maxRetries retryDelay attempt : Z) (w : World)
    : World :=
  if attempt <? maxRetries
  then suspend (timer_delay retryDelay) (after_cache_call w)
  else after_cache_call w.

(** The last error seen when [n] more attempts all fail. *)
Definition last_error (w : World) (n : nat) (lastError : option JsError)
    : option JsError :=
  match n with
  | O => lastError
  | S m => match store_reply_at w m with inl e => Some e | inr _ => None end
  end.

(** The client that passes the guard [redisClient && redisClient.isOpen]. *)
Definition guarded_client (w : World) : option RedisClient :=
  match redisClient w with
  | Some client => if redis_open_at w (ticks w) then Some client else None
  | None => None
  end.

(** The world after the database block of a health check. *)
Definition after_database_check (w : World) : World :=
  match pool w with
  | Some _ => after_store_call w
  | None => w
  end.

(** Whether the store handle is there and its next probe resolves. *)
Definition store_probe_ok (w : World) : bool :=
  match pool w with
  | Some _ => match store_reply_at w 0 with inr _ => true | inl _ => false end
  | None => false
  end.

(** The entry a health check records for the store. *)
Definition database_check (w : World) : Check :=
  match pool w with
  | Some _ =>
      match store_reply_at w 0 with
      | inr _ => check_connected (pg_elapsed (pg_reply w (pg_calls w)))
      | inl e => check_error (message e)
      end
  | None => check_status "Not Initialized"
  end.

(** The entry a health check records for the cache. *)
Definition redis_check (w : World) : Check :=
  match guarded_client w with
  | Some _ =>
      match cache_error_at w 0 with
      | None => check_connected (rd_elapsed (redis_reply w (redis_calls w)))
      | Some e => check_error (message e)
      end
  | None => check_status "Not Available"
  end.

(** The [healthCheck] object a health endpoint answers with, given the two
    status words of the endpoint. *)
Definition health_report (ok failed : string) (w : World) : HealthCheck :=
  {| hc_status := if store_probe_ok w then ok else failed;
     hc_timestamp := now w;
     hc_checks :=
       <["redis" := redis_check (after_database_check w)]>
         (<["database" := database_check w]> ∅) |}.

(** The value a read of [/api/users] finds in the cache: the guard holds,
    the [get] resolves with an unexpired, non-empty entry, and the entry
    parses. *)
Definition cached_users (w : World) : option JsValue :=
  match guarded_client w with
  | Some _ =>
      match cache_error_at w 0 with
      | Some _ => None
      | None =>
          match live_entry cacheKey (after_cache_call w) with
          | Some "" => None
          | Some cached =>
              match JSON_parse cached with
              | inr v => Some v
              | inl _ => None
              end
          | None => None
          end
      end
  | None => None
  end.

(** The world after the cache read of [/api/users]. *)
Definition after_cache_read (w : World) : World :=
  match guarded_client w with
  | Some _ => after_cache_call w
  | None => w
  end.

(** The world after the cache write of [/api/users]. *)
Definition after_cache_write (rows : JsValue) (w : World) : World :=
  match guarded_client w with
  | Some _ =>
      match cache_error_at w 0 with
      | Some _ => after_cache_call w
      | None =>
          set_redis_data
            (<[cacheKey := (JSON_stringify rows,
                            now (after_cache_call w) + 300 * 1000)]>
               (redis_data w))
            (after_cache_call w)
      end
  | None => w
  end.

(** Every command of the trace was issued on an open client. *)
Definition on_open_client (tr : list Event) : Prop :=
  Forall (fun c : RedisCmd * bool => c.2 = true) (cache_commands tr).

(** The world after the store release of the SIGTERM handler. *)
Definition after_store_release (w : World) : World :=
  match pool w with
  | Some _ => after_store_call w
  | None => w
  end.

(** The client is closed at every suspension point. *)
Definition closed_client (w : World) : Prop :=
  forall t, redis_open_at w t = false.

(** Running [m] with a client [c] that is there gives what running it with
    no client gives: the same outcome and events, the same world but for the
    handle, and no command on the cache. *)
Definition same_as_absent {A} (c : RedisClient) (m : M A) (w : World) : Prop :=
  let r0 := m (set_redisClient None w) in
  let r1 := m (set_redisClient (Some c) w) in
  outcome r1 = outcome r0 /\
  emitted r1 = emitted r0 /\
  after r1 = set_redisClient (Some c) (after r0) /\
  cache_commands (emitted r1) = [].

(** [m] does not tell a closed client from no client: from a world with no
    client and a closed liveness flag, putting a client [c] in the handle
    changes nothing but the handle, and [m] issues no command on it. *)
Definition blind_to_closed_client {A} (c : RedisClient) (m : M A) : Prop :=
  forall w, closed_client w -> redisClient w = None ->
    m (set_redisClient (Some c) w) =
      mkRun (outcome (m w)) (set_redisClient (Some c) (after (m w)))
        (emitted (m w)) /\
    closed_client (after (m w)) /\
    redisClient (after (m w)) = None /\
    cache_commands (emitted (m w)) = [].

(** A world with the same store side: handle, clock and next reply. *)
Definition same_store_side (w1 w2 : World) : Prop :=
  pool w1 = pool w2 /\ now w1 = now w2 /\
  pg_reply w1 (pg_calls w1) = pg_reply w2 (pg_calls w2).

End Script.


(** ** More readers of traces and relations between worlds *)

(** The pools a trace creates, the probes it sees rejected, the times it
    increments the retry counter and the pools it ends. *)
Definition new_pools (tr : list Event) : list PoolConfig :=
  omap (fun e => match e with EvNewPool cfg => Some cfg | _ => None end) tr.

Definition store_rejections (tr : list Event) : list string :=
  omap (fun e => match e with EvQuery sql false => Some sql | _ => None end) tr.

Definition retry_incs (tr : list Event) : list unit :=
  omap (fun e => match e with EvRetryInc => Some tt | _ => None end) tr.

Definition pool_ends (tr : list Event) : list bool :=
  omap (fun e => match e with EvPoolEnd ok => Some ok | _ => None end) tr.

(** The cache clients a trace creates. *)
Definition created_clients (tr : list Event) : list SocketConfig :=
  omap (fun e => match e with EvCreateClient cfg => Some cfg | _ => None end)
    tr.

(** The warnings of a trace that the service goes on without the cache. *)
Definition no_redis_warnings (tr : list Event) : list unit :=
  omap (fun e => match e with EvLog WarnNoRedis => Some tt | _ => None end) tr.

(** The status codes with which a trace ends the request timer, and the
    operations under which it observes a query duration. *)
Definition timer_codes (tr : list Event) : list Z :=
  omap (fun e => match e with EvTimerEnd _ _ code => Some code | _ => None end)
    tr.

Definition observations (tr : list Event) : list string :=
  omap (fun e => match e with EvObserve op _ _ => Some op | _ => None end) tr.

(** What serving a request may do: log, query the store, ping, read or write
    the cache, and record metrics. It may not create or release a connection,
    wait on a timer, open the listener or exit. *)
Definition is_request_event (e : Event) : bool :=
  match e with
  | EvLog _ | EvQuery _ _ | EvTimerStart | EvTimerEnd _ _ _
  | EvObserve _ _ _ => true
  | EvRedis CmdQuit _ _ => false
  | EvRedis _ _ _ => true
  | _ => false
  end.

Definition request_trace (tr : list Event) : Prop :=
  Forall (fun e => is_request_event e = true) tr.

Section Relations.
Context `{JsRuntime}.

(** [w'] has the handles, the environment and the script of [w]. *)
Definition same_handles (w w' : World) : Prop :=
  pool w' = pool w /\ redisClient w' = redisClient w /\ env w' = env w /\
  pg_reply w' = pg_reply w /\ redis_reply w' = redis_reply w /\
  redis_open_at w' = redis_open_at w.

(** [w'] has the handles of [w] and its keyspace. *)
Definition same_keyspace (w w' : World) : Prop :=
  same_handles w w' /\ redis_data w' = redis_data w.

(** [w'] has the handles of [w] and its keyspace but for the key of the
    users. *)
Definition same_other_keys (w w' : World) : Prop :=
  same_handles w w' /\
  forall k, k <> cacheKey -> redis_data w' !! k = redis_data w !! k.

(** [m] keeps the relation [R] between the world it starts from and the one
    it ends in, and emits only events of serving a request. *)
Definition serves_within (R : World -> World -> Prop) {A} (m : M A) : Prop :=
  forall w, R w (after (m w)) /\ request_trace (emitted (m w)).

(** The world after the two checks of a health endpoint, and the calls the
    two checks make. *)
Definition after_health (w : World) : World :=
  match guarded_client (after_database_check w) with
  | Some _ => after_cache_call (after_database_check w)
  | None => after_database_check w
  end.

Definition health_events (w : World) : list Event :=
  match pool w with
  | Some _ => [EvQuery "SELECT 1" (store_probe_ok w)]
  | None => []
  end ++
  match guarded_client (after_database_check w) with
  | Some _ =>
      [EvRedis CmdPing true
         (match cache_error_at (after_database_check w) 0 with
          | None => true
          | Some _ => false
          end)]
  | None => []
  end.

(** The string a read of [/api/users] gets from the cache and takes for the
    users ([if (cachedUsers)]): the guard holds, the [get] resolves, and the
    entry is unexpired and not empty. *)
Definition truthy_entry (w : World) : option string :=
  match guarded_client w with
  | Some _ =>
      match cache_error_at w 0 with
      | Some _ => None
      | None =>
          match live_entry cacheKey (after_cache_call w) with
          | Some "" => None
          | Some cached => Some cached
          | None => None
          end
      end
  | None => None
  end.

(** The store handle is there and the string taken for the users does not
    parse. *)
Definition unparsable_hit (w : World) : bool :=
  match pool w, truthy_entry w with
  | Some _, Some cached =>
      match JSON_parse cached with
      | inl _ => true
      | inr _ => false
      end
  | _, _ => false
  end.

(** The world in which the cache write of [/api/users] starts. *)
Definition before_cache_write (w : World) : World :=
  after_store_call (after_cache_read w).

(** The request handlers the server registers on its routes. *)
Definition handlers : list (Request -> M Response) :=
  [health; ready; api_health; api_users].

(** The worlds the server is in while it serves requests one after another:
    the world in which startup has opened the listener, and from there the
    world after a request is handled and the world after some time has
    passed. *)
Inductive serving_from (w0 : World) : World -> Prop :=
| serving_listening :
    outcome (main w0) = Returned tt -> serving_from w0 (after (main w0))
| serving_handled (h : Request -> M Response) (req : Request) (w : World) :
    In h handlers -> serving_from w0 w -> serving_from w0 (after (h req w))
| serving_waited (ms : Z) (w : World) :
    serving_from w0 w -> serving_from w0 (suspend ms w).

End Relations.

(** ** A sample runtime and sample worlds *)

Definition digit_of (c : ascii) : option Z :=
  let n := Z.of_nat (nat_of_ascii c) in
  if (48 <=? n) && (n <=? 57) then Some (n - 48) else None.

Fixpoint read_digits (s : string) (acc : option Z) : option Z :=
  match s with
  | String c rest =>
      match digit_of c with
      | Some d => read_digits rest (Some (10 * default 0 acc + d))
      | None => acc
      end
  | EmptyString => acc
  end.

(** Decimal [parseInt]: an optional minus sign and the leading digits. *)
Definition sample_parseInt (s : string) : option Z :=
  match s with
  | String "-"%char rest => Z.opp <$> read_digits rest None
  | _ => read_digits s None
  end.

(** A runtime whose JSON values are the text that follows the opening
    bracket of an array. *)
Definition sampleRuntime : JsRuntime := {|
  JsValue := string;
  parseInt := sample_parseInt;
  JSON_parse := fun s =>
    match s with
    | String "["%char rest => inr rest
    | _ => inl (mkError "SyntaxError" "Unexpected token in JSON")
    end;
  JSON_stringify := fun v => String "["%char v;
|}.

Definition sample_rows : @JsValue sampleRuntime := "1,2,3]".

Definition sample_env (attempts : string) (k : string) : option string :=
  if String.eqb k "DATABASE_RETRY_ATTEMPTS" then Some attempts else None.

Definition refused : JsError := mkError "Error" "connect ECONNREFUSED".

(** The store rejects the first [failures] calls and answers afterwards. *)
Definition pg_script (failures : nat) (n : nat) : @PgReply sampleRuntime :=
  {| pg_elapsed := 7;
     pg_result :=
       if (n <? failures)%nat then inl refused else inr sample_rows |}.

(** The cache rejects the first [failures] calls and answers afterwards. *)
Definition redis_script (failures : nat) (n : nat) : RedisReply :=
  {| rd_elapsed := 2;
     rd_error := if (n <? failures)%nat then Some refused else None |}.

(** The cache rejects its call number [k] only. *)
Definition redis_script_at (k : nat) (n : nat) : RedisReply :=
  {| rd_elapsed := 2;
     rd_error := if (n =? k)%nat then Some refused else None |}.

(** The process at start: no handle yet. *)
Definition sample_boot (attempts : string) (pg_failures redis_failures : nat)
    : @World sampleRuntime :=
  {| pool := None; redisClient := None; env := sample_env attempts;
     now := 1000; ticks := 0; pg_calls := 0; redis_calls := 0;
     redis_data := ∅;
     pg_reply := pg_script pg_failures;
     redis_reply := redis_script redis_failures;
     redis_open_at := fun _ => true |}.

Definition sample_pool : Pool :=
  {| pool_config := db_pool_config (sample_env "3") |}.

Definition sample_client : RedisClient :=
  {| client_socket := redis_socket_config (sample_env "3") |}.

(** The process while serving: the pool is there; the cache client, its
    liveness flag, the store failures ahead, the replies of the cache and the
    keyspace are given. *)
Definition sample_serving (client : option RedisClient) (open : bool)
    (pg_failures : nat) (cache : nat -> RedisReply)
    (data : gmap string (string * Z))
    : @World sampleRuntime :=
  {| pool := Some sample_pool; redisClient := client; env := sample_env "3";
     now := 50000; ticks := 0; pg_calls := 0; redis_calls := 0;
     redis_data := data;
     pg_reply := pg_script pg_failures;
     redis_reply := cache;
     redis_open_at := fun _ => open |}.

(** The same with no pool: the store handle was never established. *)
Definition sample_no_pool (client : option RedisClient) (open : bool)
    : @World sampleRuntime :=
  set_pool None (sample_serving client open 0 (redis_script 0) ∅).

Definition sample_request : Request := {| method := "GET" |}.

(** A keyspace that holds the serialised sample rows until [expiresAt]. *)
Definition sample_cached (expiresAt : Z) : gmap string (string * Z) :=
  {[ cacheKey := (@JSON_stringify sampleRuntime sample_rows, expiresAt) ]}.

(** Serving with both handles, every call resolving and an empty cache. *)
Definition serving : @World sampleRuntime :=
  sample_serving (Some sample_client) true 0 (redis_script 0) ∅.

(** Serving while the store rejects its next call. *)
Definition serving_store_down : @World sampleRuntime :=
  sample_serving (Some sample_client) true 1 (redis_script 0) ∅.

(** Serving while the cache rejects its next call, and its second call. *)
Definition serving_cache_down : @World sampleRuntime :=
  sample_serving (Some sample_client) true 0 (redis_script 1) ∅.

Definition serving_populate_fails : @World sampleRuntime :=
  sample_serving (Some sample_client) true 0 (redis_script_at 1) ∅.

(** Serving with the sample rows cached until 60000. *)
Definition serving_cached : @World sampleRuntime :=
  sample_serving (Some sample_client) true 0 (redis_script 0)
    (sample_cached 60000).

(** Serving with no cache client, and with a liveness flag that is down. *)
Definition serving_no_cache : @World sampleRuntime :=
  sample_serving None true 0 (redis_script 1) ∅.

Definition serving_flag_down : @World sampleRuntime :=
  sample_serving None false 0 (redis_script 0) ∅.

(** ** Traces *)

(** Each reader of a trace goes through an append. *)

Lemma store_calls_app (t1 t2 : list Event) :
  store_calls (t1 ++ t2) = store_calls t1 ++ store_calls t2.
Proof. apply omap_app. Qed.

Lemma waits_app (t1 t2 : list Event) : waits (t1 ++ t2) = waits t1 ++ waits t2.
Proof. apply omap_app. Qed.

Lemma cache_connects_app (t1 t2 : list Event) :
  cache_connects (t1 ++ t2) = cache_connects t1 ++ cache_connects t2.
Proof. apply omap_app. Qed.

Lemma listens_app (t1 t2 : list Event) :
  listens (t1 ++ t2) = listens t1 ++ listens t2.
Proof. apply omap_app. Qed.

Lemma exits_app (t1 t2 : list Event) : exits (t1 ++ t2) = exits t1 ++ exits t2.
Proof. apply omap_app. Qed.

Lemma cache_commands_app (t1 t2 : list Event) :
  cache_commands (t1 ++ t2) = cache_commands t1 ++ cache_commands t2.
Proof. apply omap_app. Qed.

Lemma releases_app (t1 t2 : list Event) :
  releases (t1 ++ t2) = releases t1 ++ releases t2.
Proof. apply omap_app. Qed.

Create Rewrite HintDb trace.
#[export] Hint Rewrite store_calls_app waits_app cache_connects_app listens_app
  exits_app cache_commands_app releases_app : trace.

Lemma on_open_client_app (t1 t2 : list Event) :
  on_open_client t1 -> on_open_client t2 -> on_open_client (t1 ++ t2).
Proof.
  unfold on_open_client. rewrite cache_commands_app. apply Forall_app_2.
Qed.
(** ** Acquisition of the store *)

Section Acquire.
Context `{JsRuntime}.

Lemma bind_returned {A B} (m : M A) (k : A -> M B) w a w1 ev1 :
  m w = mkRun (Returned a) w1 ev1 ->
  bind m k w =
    mkRun (outcome (k a w1)) (after (k a w1)) (ev1 ++ emitted (k a w1)).
Proof. unfold bind. intros ->. destruct (k a w1). reflexivity. Qed.

Lemma bind_thrown {A B} (m : M A) (k : A -> M B) w e w1 ev1 :
  m w = mkRun (Thrown e) w1 ev1 -> bind m k w = mkRun (Thrown e) w1 ev1.
Proof. unfold bind. intros ->. reflexivity. Qed.

Lemma bind_exited {A B} (m : M A) (k : A -> M B) w c w1 ev1 :
  m w = mkRun (Exited c) w1 ev1 -> bind m k w = mkRun (Exited c) w1 ev1.
Proof. unfold bind. intros ->. reflexivity. Qed.

Lemma try_catch_thrown {A} (m : M A) (h : JsError -> M A) w e w1 ev1 :
  m w = mkRun (Thrown e) w1 ev1 ->
  try_catch m h w =
    mkRun (outcome (h e w1)) (after (h e w1)) (ev1 ++ emitted (h e w1)).
Proof. unfold try_catch. intros ->. destruct (h e w1). reflexivity. Qed.

Lemma try_catch_returned {A} (m : M A) (h : JsError -> M A) w a w1 ev1 :
  m w = mkRun (Returned a) w1 ev1 ->
  try_catch m h w = mkRun (Returned a) w1 ev1.
Proof. unfold try_catch. intros ->. reflexivity. Qed.

Lemma try_catch_exited {A} (m : M A) (h : JsError -> M A) w c w1 ev1 :
  m w = mkRun (Exited c) w1 ev1 -> try_catch m h w = mkRun (Exited c) w1 ev1.
Proof. unfold try_catch. intros ->. reflexivity. Qed.

Lemma run_eta {A} (r : Run A) : r = mkRun (outcome r) (after r) (emitted r).
Proof. destruct r. reflexivity. Qed.

Lemma db_attempt_fails maxRetries retryDelay attempt w e :
  store_reply_at w 0 = inl e ->
  db_attempt maxRetries retryDelay attempt w =
    mkRun (Returned (inr e))
      (after_failed_attempt maxRetries retryDelay attempt w)
      ([EvLog (LogDbAttempt attempt maxRetries);
        EvNewPool (db_pool_config (env w));
        EvQuery "SELECT 1" false; EvRetryInc;
        EvLog (LogDbFailed attempt (message e))] ++
       (if attempt <? maxRetries
        then [EvLog (LogRetrying retryDelay); EvSleep retryDelay] else [])).
Proof.
  unfold store_reply_at. rewrite Nat.add_0_r. intros He.
  unfold db_attempt, after_failed_attempt, try_catch, bind, pool_query, pg_call.
  cbn. rewrite He. cbn.
  destruct (attempt <? maxRetries); reflexivity.
Qed.

Lemma db_attempt_succeeds maxRetries retryDelay attempt w v :
  store_reply_at w 0 = inr v ->
  db_attempt maxRetries retryDelay attempt w =
    mkRun (Returned (inl {| pool_config := db_pool_config (env w) |}))
      (after_store_call w)
      [EvLog (LogDbAttempt attempt maxRetries);
       EvNewPool (db_pool_config (env w));
       EvQuery "SELECT 1" true; EvLog LogDbConnected].
Proof.
  unfold store_reply_at. rewrite Nat.add_0_r. intros Hv.
  unfold db_attempt, try_catch, bind, pool_query, pg_call.
  cbn. rewrite Hv. reflexivity.
Qed.

Lemma after_failed_attempt_env maxRetries retryDelay attempt w :
  env (after_failed_attempt maxRetries retryDelay attempt w) = env w.
Proof.
  unfold after_failed_attempt. destruct (attempt <? maxRetries); reflexivity.
Qed.

Lemma after_failed_attempt_script maxRetries retryDelay attempt w i :
  store_reply_at (after_failed_attempt maxRetries retryDelay attempt w) i =
  store_reply_at w (S i).
Proof.
  unfold after_failed_attempt, store_reply_at.
  destruct (attempt <? maxRetries); cbn; f_equal; f_equal; lia.
Qed.

Lemma db_loop_succeeds maxRetries retryDelay (j : nat) :
  forall fuel attempt lastError w v,
  (j < fuel)%nat ->
  attempt + Z.of_nat j <= maxRetries ->
  (forall i, (i < j)%nat -> exists e, store_reply_at w i = inl e) ->
  store_reply_at w j = inr v ->
  let r := db_loop fuel maxRetries retryDelay attempt lastError w in
  outcome r = Returned {| pool_config := db_pool_config (env w) |} /\
  store_calls (emitted r) = replicate j false ++ [true] /\
  waits (emitted r) = replicate j retryDelay.
Proof.
  induction j as [|j IH]; intros fuel attempt lastError w v Hfuel Hle Hfail Hok.
  - destruct fuel as [|fuel]; [lia|]. cbn [db_loop].
    replace (attempt <=? maxRetries) with true by lia.
    rewrite (bind_returned _ _ _ _ _ _ (db_attempt_succeeds _ _ _ _ _ Hok)).
    cbn. auto.
  - destruct fuel as [|fuel]; [lia|]. cbn [db_loop].
    replace (attempt <=? maxRetries) with true by lia.
    destruct (Hfail O) as [e He]; [lia|].
    rewrite (bind_returned _ _ _ _ _ _ (db_attempt_fails _ _ _ _ _ He)).
    cbn [outcome after emitted].
    replace (attempt <? maxRetries) with true by lia.
    set (w' := after_failed_attempt maxRetries retryDelay attempt w).
    destruct (IH fuel (attempt + 1) (Some e) w' v) as (Ho & Hc & Hw).
    + lia.
    + lia.
    + intros i Hi. unfold w'. rewrite after_failed_attempt_script.
      apply Hfail. lia.
    + unfold w'. rewrite after_failed_attempt_script. exact Hok.
    + cbn zeta. rewrite Ho, store_calls_app, waits_app, Hc, Hw.
      unfold w'. rewrite after_failed_attempt_env. auto.
Qed.

Lemma db_loop_fails maxRetries retryDelay (n : nat) :
  forall fuel attempt lastError w,
  (n <= fuel)%nat ->
  attempt + Z.of_nat n = maxRetries + 1 ->
  (forall i, (i < n)%nat -> exists e, store_reply_at w i = inl e) ->
  let r := db_loop fuel maxRetries retryDelay attempt lastError w in
  outcome r = Thrown (exhausted_error maxRetries (last_error w n lastError)) /\
  store_calls (emitted r) = replicate n false /\
  waits (emitted r) = replicate (n - 1) retryDelay /\
  (forall e, (1 <= n)%nat -> last_error w n lastError = Some e ->
     exists pre, emitted r =
       pre ++ [EvQuery "SELECT 1" false; EvRetryInc;
               EvLog (LogDbFailed maxRetries (message e))]).
Proof.
  induction n as [|n IH]; intros fuel attempt lastError w Hfuel Hn Hfail.
  - assert (Hex : db_loop fuel maxRetries retryDelay attempt lastError w =
                  db_exhausted maxRetries lastError w).
    { destruct fuel as [|fuel]; [reflexivity|]. cbn [db_loop].
      replace (attempt <=? maxRetries) with false by lia. reflexivity. }
    cbn zeta. rewrite Hex. cbn. repeat split; auto. intros e He. lia.
  - destruct fuel as [|fuel]; [lia|]. cbn [db_loop].
    replace (attempt <=? maxRetries) with true by lia.
    destruct (Hfail O) as [e He]; [lia|].
    rewrite (bind_returned _ _ _ _ _ _ (db_attempt_fails _ _ _ _ _ He)).
    cbn [outcome after emitted].
    set (w' := after_failed_attempt maxRetries retryDelay attempt w).
    destruct (IH fuel (attempt + 1) (Some e) w') as (Ho & Hc & Hw & Hl).
    + lia.
    + lia.
    + intros i Hi. unfold w'. rewrite after_failed_attempt_script.
      apply Hfail. lia.
    + assert (Hlast : last_error w' n (Some e) = last_error w (S n) lastError).
      { destruct n as [|m]; cbn [last_error].
        - rewrite He. reflexivity.
        - unfold w'. rewrite after_failed_attempt_script. reflexivity. }
      cbn zeta. rewrite Ho, Hlast, store_calls_app, waits_app, Hc, Hw.
      repeat split.
      * destruct (attempt <? maxRetries); reflexivity.
      * destruct n as [|m].
        -- replace (attempt <? maxRetries) with false by lia. reflexivity.
        -- replace (attempt <? maxRetries) with true by lia. cbn.
           rewrite Nat.sub_0_r. reflexivity.
      * intros e' _ He'. destruct n as [|m].
        -- cbn [last_error] in He'. unfold store_reply_at in He, He'.
           rewrite He in He'. injection He' as <-.
           replace (attempt <? maxRetries) with false by lia.
           assert (Hnil : emitted (db_loop fuel maxRetries retryDelay
                                     (attempt + 1) (Some e) w') = []).
           { destruct fuel as [|fuel']; [reflexivity|]. cbn [db_loop].
             replace (attempt + 1 <=? maxRetries) with false by lia.
             reflexivity. }
           rewrite Hnil. replace attempt with maxRetries by lia.
           exists [EvLog (LogDbAttempt maxRetries maxRetries);
                   EvNewPool (db_pool_config (env w))].
           reflexivity.
        -- destruct (Hl e') as [pre Hpre]; [lia| |].
           { rewrite Hlast. exact He'. }
           rewrite Hpre. eexists. rewrite !app_assoc. reflexivity.
Qed.

Lemma bind_ext {A B} (m : M A) (k1 k2 : A -> M B) (w : World) :
  (forall a w', k1 a w' = k2 a w') -> bind m k1 w = bind m k2 w.
Proof.
  intros Hk. unfold bind.
  destruct (m w) as [[a|e|code] w1 ev1]; try reflexivity.
  rewrite Hk. reflexivity.
Qed.

(** The fuel never cuts the loop short: from [attempt], the iterations left
    are [maxRetries + 1 - attempt], and any fuel above that runs the same. *)
Lemma db_loop_fuel maxRetries retryDelay (fuel : nat) :
  forall attempt lastError w,
  (Z.to_nat (maxRetries + 1 - attempt) <= fuel)%nat ->
  db_loop fuel maxRetries retryDelay attempt lastError w =
  db_loop (Z.to_nat (maxRetries + 1 - attempt)) maxRetries retryDelay attempt
    lastError w.
Proof.
  induction fuel as [|fuel IH]; intros attempt lastError w Hfuel.
  - replace (Z.to_nat (maxRetries + 1 - attempt)) with O by lia. reflexivity.
  - cbn [db_loop]. destruct (attempt <=? maxRetries) eqn:Hle.
    + replace (Z.to_nat (maxRetries + 1 - attempt))
        with (S (Z.to_nat (maxRetries + 1 - (attempt + 1)))) by lia.
      cbn [db_loop]. rewrite Hle. apply bind_ext.
      intros [p|e] w'; [reflexivity|]. apply IH. lia.
    + replace (Z.to_nat (maxRetries + 1 - attempt)) with O by lia.
      reflexivity.
Qed.

Lemma db_maxRetries_nonzero (e : string -> option string) :
  db_maxRetries e <> 0.
Proof.
  unfold db_maxRetries, num_or.
  destruct (parseInt_env _) as [[| |]|]; lia.
Qed.

(** With a negative [maxRetries] the loop body never runs and the final
    [throw] finds no [lastError]. *)
Lemma connectToDatabaseWithRetry_negative (w : World) :
  db_maxRetries (env w) < 0 ->
  connectToDatabaseWithRetry w =
    mkRun (Thrown (exhausted_error (db_maxRetries (env w)) None)) w [].
Proof.
  intros Hneg. unfold connectToDatabaseWithRetry.
  erewrite bind_returned by reflexivity.
  destruct (db_maxRetries (env w)) eqn:E; try lia. reflexivity.
Qed.

(** C1. For the configured [maxRetries = N] and [retryDelay = D]: when the
    probe query fails on attempts 1..k-1 and succeeds on attempt [k <= N],
    [connectToDatabaseWithRetry] returns the pool after exactly [k] attempts
    (k-1 rejected probes, then one resolved) and exactly k-1 waits, each of
    [D]; when the probe fails on all [N >= 1] attempts, it throws an [Error]
    whose message carries the message of the last underlying error, after
    exactly [N] attempts and N-1 waits, and nothing but the retry counter and
    the failure log follows the last probe (no wait after the final
    attempt). *)
Theorem connectToDatabaseWithRetry_attempts (w : World) :
  let N := db_maxRetries (env w) in
  let D := db_retryDelay (env w) in
  let r := connectToDatabaseWithRetry w in
  (forall (k : nat) (v : JsValue),
     (1 <= k)%nat -> Z.of_nat k <= N ->
     (forall i, (i < k - 1)%nat -> exists e, store_reply_at w i = inl e) ->
     store_reply_at w (k - 1) = inr v ->
     outcome r = Returned {| pool_config := db_pool_config (env w) |} /\
     store_calls (emitted r) = replicate (k - 1) false ++ [true] /\
     waits (emitted r) = replicate (k - 1) D) /\
  (1 <= N ->
   (forall i, (i < Z.to_nat N)%nat -> exists e, store_reply_at w i = inl e) ->
   exists e pre,
     store_reply_at w (Z.to_nat N - 1) = inl e /\
     outcome r = Thrown (mkError "Error"
       ("Failed to connect to database after " +:+ pretty N +:+
        " attempts. Last error: " +:+ message e)) /\
     store_calls (emitted r) = replicate (Z.to_nat N) false /\
     waits (emitted r) = replicate (Z.to_nat N - 1) D /\
     emitted r = pre ++ [EvQuery "SELECT 1" false; EvRetryInc;
                         EvLog (LogDbFailed N (message e))]).
Proof.
  intros N D r. split.
  - intros k v Hk HkN Hfail Hok.
    unfold r, connectToDatabaseWithRetry.
    erewrite bind_returned by reflexivity.
    cbn [outcome after emitted app]. fold N D.
    destruct (db_loop_succeeds N D (k - 1) (Z.to_nat N) 1 None w v)
      as (Ho & Hc & Hw); try assumption; try lia.
    cbn zeta in Ho, Hc, Hw. rewrite Ho. cbn. auto.
  - intros HN Hfail.
    destruct (Hfail (Z.to_nat N - 1)%nat) as [e He]; [lia|].
    unfold r, connectToDatabaseWithRetry.
    erewrite bind_returned by reflexivity.
    cbn [outcome after emitted app]. fold N D.
    destruct (db_loop_fails N D (Z.to_nat N) (Z.to_nat N) 1 None w)
      as (Ho & Hc & Hw & Hl); try assumption; try lia.
    assert (Hlast : last_error w (Z.to_nat N) None = Some e).
    { destruct (Z.to_nat N) as [|m] eqn:E; [lia|]. cbn [last_error].
      replace (S m - 1)%nat with m in He by lia. rewrite He. reflexivity. }
    destruct (Hl e) as [pre Hpre]; [lia|exact Hlast|].
    cbn zeta in Ho, Hc, Hw. rewrite Hlast in Ho.
    exists e, pre. rewrite Ho. cbn [outcome emitted app].
    repeat split; auto.
Qed.

End Acquire.

(** The sample world where the store answers on the third of three attempts,
    and the one where it never answers. *)
Lemma connectToDatabaseWithRetry_attempts_witness :
  (let r := connectToDatabaseWithRetry (sample_boot "3" 2 0) in
   outcome r = Returned {| pool_config := db_pool_config (sample_env "3") |} /\
   store_calls (emitted r) = [false; false; true] /\
   waits (emitted r) = [5000; 5000]) /\
  (let r := connectToDatabaseWithRetry (sample_boot "3" 3 0) in
   exists e pre,
     e = refused /\
     outcome r = Thrown (exhausted_error 3 (Some refused)) /\
     store_calls (emitted r) = [false; false; false] /\
     waits (emitted r) = [5000; 5000] /\
     emitted r = pre ++ [EvQuery "SELECT 1" false; EvRetryInc;
                         EvLog (LogDbFailed 3 "connect ECONNREFUSED")]).
Proof.
  split.
  - destruct (connectToDatabaseWithRetry_attempts (sample_boot "3" 2 0))
      as [Hok _].
    apply (Hok 3%nat sample_rows).
    + lia.
    + vm_compute. discriminate.
    + intros i Hi. exists refused.
      destruct i as [|[|i]]; [reflexivity|reflexivity|cbn in Hi; lia].
    + reflexivity.
  - destruct (connectToDatabaseWithRetry_attempts (sample_boot "3" 3 0))
      as [_ Hko].
    destruct Hko as (e & pre & He & Ho & Hc & Hw & Hp).
    + vm_compute. discriminate.
    + intros i Hi. exists refused. change (Z.to_nat _) with 3%nat in Hi.
      destruct i as [|[|[|i]]]; [reflexivity|reflexivity|reflexivity|lia].
    + exists e, pre. vm_compute in He. injection He as <-.
      repeat split; assumption.
Defined.

(** ** Acquisition of the cache and startup *)

Section Startup.
Context `{JsRuntime}.

Lemma redis_attempt_run maxRetries retryDelay attempt w :
  redis_attempt maxRetries retryDelay attempt w =
  match cache_error_at w 0 with
  | None =>
      mkRun (Returned (Some {| client_socket := redis_socket_config (env w) |}))
        (after_cache_call w)
        [EvLog (LogRedisAttempt attempt maxRetries);
         EvCreateClient (redis_socket_config (env w));
         EvRedisConnect true; EvLog LogRedisConnected]
  | Some e =>
      mkRun (Returned None)
        (after_failed_connect maxRetries retryDelay attempt w)
        ([EvLog (LogRedisAttempt attempt maxRetries);
          EvCreateClient (redis_socket_config (env w));
          EvRedisConnect false;
          EvLog (LogRedisFailed attempt (message e))] ++
         (if attempt <? maxRetries
          then [EvLog (LogRetrying retryDelay); EvSleep retryDelay] else []))
  end.
Proof.
  unfold cache_error_at. rewrite Nat.add_0_r.
  destruct (rd_error (redis_reply w (redis_calls w))) as [e|] eqn:He;
    unfold redis_attempt, after_failed_connect, try_catch, bind,
      redis_connect, redis_call;
    cbn; rewrite He; cbn; [|reflexivity].
  destruct (attempt <? maxRetries); reflexivity.
Qed.

Lemma after_failed_connect_script maxRetries retryDelay attempt w i :
  cache_error_at (after_failed_connect maxRetries retryDelay attempt w) i =
  cache_error_at w (S i).
Proof.
  unfold after_failed_connect, cache_error_at.
  destruct (attempt <? maxRetries); cbn; f_equal; f_equal; lia.
Qed.

Lemma redis_loop_fuel maxRetries retryDelay (fuel : nat) :
  forall attempt w,
  (Z.to_nat (maxRetries + 1 - attempt) <= fuel)%nat ->
  redis_loop fuel maxRetries retryDelay attempt w =
  redis_loop (Z.to_nat (maxRetries + 1 - attempt)) maxRetries retryDelay
    attempt w.
Proof.
  induction fuel as [|fuel IH]; intros attempt w Hfuel.
  - replace (Z.to_nat (maxRetries + 1 - attempt)) with O by lia. reflexivity.
  - cbn [redis_loop]. destruct (attempt <=? maxRetries) eqn:Hle.
    + replace (Z.to_nat (maxRetries + 1 - attempt))
        with (S (Z.to_nat (maxRetries + 1 - (attempt + 1)))) by lia.
      cbn [redis_loop]. rewrite Hle. apply bind_ext.
      intros [client|] w'; [reflexivity|]. apply IH. lia.
    + replace (Z.to_nat (maxRetries + 1 - attempt)) with O by lia.
      reflexivity.
Qed.

(** Whatever the cache answers, the loop returns, after at most [fuel]
    connection attempts, and neither opens the listener nor exits. *)
Lemma redis_loop_returns maxRetries retryDelay (fuel : nat) :
  forall attempt w,
  let r := redis_loop fuel maxRetries retryDelay attempt w in
  (exists c, outcome r = Returned c) /\
  (length (cache_connects (emitted r)) <= fuel)%nat /\
  listens (emitted r) = [] /\ exits (emitted r) = [] /\
  pool (after r) = pool w /\ env (after r) = env w.
Proof.
  induction fuel as [|fuel IH]; intros attempt w; cbn [redis_loop].
  - cbn. eauto 10.
  - destruct (attempt <=? maxRetries); [|cbn; eauto 10 with lia].
    pose proof (redis_attempt_run maxRetries retryDelay attempt w) as Hrun.
    destruct (cache_error_at w 0) as [e|].
    + rewrite (bind_returned _ _ _ _ _ _ Hrun). cbn [outcome after emitted].
      destruct (IH (attempt + 1)
                  (after_failed_connect maxRetries retryDelay attempt w))
        as (Hc & Hn & Hl & Hx & Hp & He).
      cbn zeta in *. autorewrite with trace. rewrite Hl, Hx, length_app.
      repeat split.
      * exact Hc.
      * destruct (attempt <? maxRetries); cbn; lia.
      * destruct (attempt <? maxRetries); reflexivity.
      * destruct (attempt <? maxRetries); reflexivity.
      * rewrite Hp. unfold after_failed_connect.
        destruct (attempt <? maxRetries); reflexivity.
      * rewrite He. unfold after_failed_connect.
        destruct (attempt <? maxRetries); reflexivity.
    + rewrite (bind_returned _ _ _ _ _ _ Hrun). cbn. eauto 10 with lia.
Qed.

(** When the next [n] connection attempts are all the remaining ones and
    all fail, the loop returns [null]. *)
Lemma redis_loop_absent maxRetries retryDelay (n : nat) :
  forall fuel attempt w,
  (n <= fuel)%nat ->
  attempt + Z.of_nat n = maxRetries + 1 ->
  (forall i, (i < n)%nat -> is_Some (cache_error_at w i)) ->
  let r := redis_loop fuel maxRetries retryDelay attempt w in
  outcome r = Returned None /\
  cache_connects (emitted r) = replicate n false /\
  waits (emitted r) = replicate (n - 1) retryDelay.
Proof.
  induction n as [|n IH]; intros fuel attempt w Hfuel Hn Hfail.
  - assert (Hex : redis_loop fuel maxRetries retryDelay attempt w =
                  redis_exhausted w).
    { destruct fuel as [|fuel]; [reflexivity|]. cbn [redis_loop].
      replace (attempt <=? maxRetries) with false by lia. reflexivity. }
    cbn zeta. rewrite Hex. cbn. auto.
  - destruct fuel as [|fuel]; [lia|]. cbn [redis_loop].
    replace (attempt <=? maxRetries) with true by lia.
    pose proof (redis_attempt_run maxRetries retryDelay attempt w) as Hrun.
    destruct (Hfail O) as [e He]; [lia|]. rewrite He in Hrun.
    rewrite (bind_returned _ _ _ _ _ _ Hrun). cbn [outcome after emitted].
    destruct (IH fuel (attempt + 1)
                (after_failed_connect maxRetries retryDelay attempt w))
      as (Ho & Hc & Hw).
    + lia.
    + lia.
    + intros i Hi. rewrite after_failed_connect_script. apply Hfail. lia.
    + cbn zeta in *. rewrite Ho, cache_connects_app, waits_app, Hc, Hw.
      repeat split.
      * destruct (attempt <? maxRetries); reflexivity.
      * destruct n as [|m].
        -- replace (attempt <? maxRetries) with false by lia. reflexivity.
        -- replace (attempt <? maxRetries) with true by lia. cbn.
           rewrite Nat.sub_0_r. reflexivity.
Qed.

(** When [j] connection attempts fail and the next one succeeds within the
    bound, the loop returns the client. *)
Lemma redis_loop_connected maxRetries retryDelay (j : nat) :
  forall fuel attempt w,
  (j < fuel)%nat ->
  attempt + Z.of_nat j <= maxRetries ->
  (forall i, (i < j)%nat -> is_Some (cache_error_at w i)) ->
  cache_error_at w j = None ->
  let r := redis_loop fuel maxRetries retryDelay attempt w in
  outcome r =
    Returned (Some {| client_socket := redis_socket_config (env w) |}) /\
  cache_connects (emitted r) = replicate j false ++ [true] /\
  waits (emitted r) = replicate j retryDelay.
Proof.
  induction j as [|j IH]; intros fuel attempt w Hfuel Hle Hfail Hok.
  - destruct fuel as [|fuel]; [lia|]. cbn [redis_loop].
    replace (attempt <=? maxRetries) with true by lia.
    pose proof (redis_attempt_run maxRetries retryDelay attempt w) as Hrun.
    rewrite Hok in Hrun.
    rewrite (bind_returned _ _ _ _ _ _ Hrun). cbn. auto.
  - destruct fuel as [|fuel]; [lia|]. cbn [redis_loop].
    replace (attempt <=? maxRetries) with true by lia.
    pose proof (redis_attempt_run maxRetries retryDelay attempt w) as Hrun.
    destruct (Hfail O) as [e He]; [lia|]. rewrite He in Hrun.
    rewrite (bind_returned _ _ _ _ _ _ Hrun). cbn [outcome after emitted].
    replace (attempt <? maxRetries) with true by lia.
    destruct (IH fuel (attempt + 1)
                (after_failed_connect maxRetries retryDelay attempt w))
      as (Ho & Hc & Hw).
    + lia.
    + lia.
    + intros i Hi. rewrite after_failed_connect_script. apply Hfail. lia.
    + rewrite after_failed_connect_script. exact Hok.
    + cbn zeta in *. rewrite Ho, cache_connects_app, waits_app, Hc, Hw.
      unfold after_failed_connect.
      replace (attempt <? maxRetries) with true by lia. auto.
Qed.

(** The store loop returns or throws; it neither opens the listener nor
    exits, and when it returns its last probe resolved. *)
Lemma db_loop_cases maxRetries retryDelay (fuel : nat) :
  forall attempt lastError w,
  let r := db_loop fuel maxRetries retryDelay attempt lastError w in
  listens (emitted r) = [] /\ exits (emitted r) = [] /\
  env (after r) = env w /\
  ((exists p pre, outcome r = Returned p /\
                  store_calls (emitted r) = pre ++ [true]) \/
   (exists e, outcome r = Thrown e)).
Proof.
  induction fuel as [|fuel IH]; intros attempt lastError w; cbn [db_loop].
  - cbn. eauto 10.
  - destruct (attempt <=? maxRetries); [|cbn; eauto 10].
    destruct (store_reply_at w 0) as [e|v] eqn:Hr.
    + rewrite (bind_returned _ _ _ _ _ _ (db_attempt_fails _ _ _ _ _ Hr)).
      cbn [outcome after emitted].
      destruct (IH (attempt + 1) (Some e)
                  (after_failed_attempt maxRetries retryDelay attempt w))
        as (Hl & Hx & He & Hc).
      cbn zeta in *. autorewrite with trace. rewrite Hl, Hx, He.
      rewrite after_failed_attempt_env. repeat split.
      * destruct (attempt <? maxRetries); reflexivity.
      * destruct (attempt <? maxRetries); reflexivity.
      * destruct Hc as [(p & pre & Ho & Hs)|(e' & Ho)]; [left|right; eauto].
        exists p. rewrite Hs. eexists. split; [exact Ho|].
        rewrite app_assoc. reflexivity.
    + rewrite (bind_returned _ _ _ _ _ _ (db_attempt_succeeds _ _ _ _ _ Hr)).
      cbn. repeat split. left. eexists. exists []. eauto.
Qed.

Lemma connectToDatabaseWithRetry_cases (w : World) :
  let r := connectToDatabaseWithRetry w in
  listens (emitted r) = [] /\ exits (emitted r) = [] /\
  env (after r) = env w /\
  ((exists p pre, outcome r = Returned p /\
                  store_calls (emitted r) = pre ++ [true]) \/
   (exists e, outcome r = Thrown e)).
Proof.
  unfold connectToDatabaseWithRetry.
  erewrite bind_returned by reflexivity. cbn [outcome after emitted app].
  apply db_loop_cases.
Qed.

(** When every attempt the budget allows fails, acquisition throws. *)
Lemma connectToDatabaseWithRetry_unreachable (w : World) :
  (forall i, (i < Z.to_nat (db_maxRetries (env w)))%nat ->
             exists e, store_reply_at w i = inl e) ->
  exists e, outcome (connectToDatabaseWithRetry w) = Thrown e.
Proof.
  intros Hfail.
  destruct (Z_lt_le_dec (db_maxRetries (env w)) 1) as [Hlt|Hge].
  - pose proof (db_maxRetries_nonzero (env w)).
    rewrite connectToDatabaseWithRetry_negative by lia. cbn. eauto.
  - unfold connectToDatabaseWithRetry.
    erewrite bind_returned by reflexivity. cbn [outcome after emitted app].
    destruct (db_loop_fails (db_maxRetries (env w)) (db_retryDelay (env w))
                (Z.to_nat (db_maxRetries (env w)))
                (Z.to_nat (db_maxRetries (env w))) 1 None w)
      as (Ho & _); [lia|lia|exact Hfail|].
    cbn zeta in Ho. rewrite Ho. eauto.
Qed.

Lemma connectToRedisWithRetry_returns (w : World) :
  let r := connectToRedisWithRetry w in
  (exists c, outcome r = Returned c) /\
  (length (cache_connects (emitted r)) <= 3)%nat /\
  listens (emitted r) = [] /\ exits (emitted r) = [] /\
  pool (after r) = pool w /\ env (after r) = env w.
Proof. apply (redis_loop_returns 3 3000 3 1 w). Qed.

Lemma initializeConnections_acquired w p w1 ev1 c :
  connectToDatabaseWithRetry w = mkRun (Returned p) w1 ev1 ->
  let r2 := connectToRedisWithRetry (set_pool (Some p) w1) in
  outcome r2 = Returned c ->
  initializeConnections w =
    mkRun (Returned tt) (set_redisClient c (after r2))
      (ev1 ++ emitted r2 ++ [EvLog LogAllConnections]).
Proof.
  intros Hdb r2 Hc. unfold initializeConnections.
  apply try_catch_returned.
  rewrite (bind_returned _ _ _ _ _ _ Hdb). cbn [outcome after emitted].
  erewrite bind_returned by reflexivity. cbn [outcome after emitted app].
  assert (Hr2 : connectToRedisWithRetry (set_pool (Some p) w1) =
                mkRun (Returned c) (after r2) (emitted r2)).
  { rewrite <- Hc. apply run_eta. }
  rewrite (bind_returned _ _ _ _ _ _ Hr2). cbn [outcome after emitted].
  erewrite bind_returned by reflexivity. cbn. reflexivity.
Qed.

Lemma initializeConnections_failed w e w1 ev1 :
  connectToDatabaseWithRetry w = mkRun (Thrown e) w1 ev1 ->
  initializeConnections w =
    mkRun (Exited 1) w1 (ev1 ++ [EvLog (ErrInitFailed e); EvExit 1]).
Proof.
  intros Hdb. unfold initializeConnections.
  erewrite try_catch_thrown.
  2: { rewrite (bind_thrown _ _ _ _ _ _ Hdb). reflexivity. }
  reflexivity.
Qed.

(** The events of [app.listen(port, callback)]. *)
Lemma app_listen_run port w :
  app_listen port w =
    mkRun (Returned tt) w
      [EvListen port; EvLog (LogServerRunning port); EvLog (LogMetricsAt port);
       EvLog (LogHealthAt port); EvLog (LogReadyAt port);
       EvLog (LogDetailedAt port)].
Proof. reflexivity. Qed.

Lemma main_serving w p w1 ev1 c :
  connectToDatabaseWithRetry w = mkRun (Returned p) w1 ev1 ->
  let r2 := connectToRedisWithRetry (set_pool (Some p) w1) in
  outcome r2 = Returned c ->
  main w =
    mkRun (Returned tt) (set_redisClient c (after r2))
      (ev1 ++ emitted r2 ++ [EvLog LogAllConnections] ++
       emitted (app_listen (PORT (env (after r2))) w)).
Proof.
  intros Hdb r2 Hc. unfold main. apply try_catch_returned.
  rewrite (bind_returned _ _ _ _ _ _
             (initializeConnections_acquired _ _ _ _ _ Hdb Hc)).
  cbn [outcome after emitted].
  erewrite bind_returned by reflexivity. cbn [outcome after emitted app].
  rewrite app_listen_run. cbn [outcome after emitted set_redisClient env].
  fold r2. rewrite <- !app_assoc. reflexivity.
Qed.

Lemma main_failed w e w1 ev1 :
  connectToDatabaseWithRetry w = mkRun (Thrown e) w1 ev1 ->
  main w = mkRun (Exited 1) w1 (ev1 ++ [EvLog (ErrInitFailed e); EvExit 1]).
Proof.
  intros Hdb. unfold main. apply try_catch_exited.
  apply bind_exited. apply initializeConnections_failed. exact Hdb.
Qed.

(** C6. [connectToRedisWithRetry] never throws and never exits: whatever
    the connection attempts answer, it returns a client or [null] after at
    most three attempts, and [null] when all three fail. When the store was
    acquired and the cache is absent, startup still opens the listener, with
    [redisClient] left [null]. *)
Theorem connectToRedisWithRetry_never_throws :
  (forall w : World,
     let r := connectToRedisWithRetry w in
     (exists c, outcome r = Returned c) /\
     (length (cache_connects (emitted r)) <= 3)%nat /\
     ((forall i, (i < 3)%nat -> is_Some (cache_error_at w i)) ->
      outcome r = Returned None /\
      cache_connects (emitted r) = [false; false; false])) /\
  (forall (w : World) (p : Pool),
     let db := connectToDatabaseWithRetry w in
     outcome db = Returned p ->
     outcome (connectToRedisWithRetry (set_pool (Some p) (after db))) =
       Returned None ->
     let r := main w in
     outcome r = Returned tt /\
     listens (emitted r) = [PORT (env w)] /\
     pool (after r) = Some p /\
     redisClient (after r) = None).
Proof.
  split.
  - intros w r.
    destruct (connectToRedisWithRetry_returns w) as (Hc & Hn & _).
    split; [exact Hc|]. split; [exact Hn|].
    intros Hfail.
    destruct (redis_loop_absent 3 3000 3 3 1 w) as (Ho & Hcc & _);
      [lia|lia|exact Hfail|]. auto.
  - intros w p db Hdb Hnone r.
    assert (Hrun : connectToDatabaseWithRetry w =
                   mkRun (Returned p) (after db) (emitted db)).
    { rewrite <- Hdb. apply run_eta. }
    unfold r. rewrite (main_serving _ _ _ _ _ Hrun Hnone).
    destruct (connectToDatabaseWithRetry_cases w) as (Hl & _ & He & _).
    destruct (connectToRedisWithRetry_returns (set_pool (Some p) (after db)))
      as (_ & _ & Hl2 & _ & Hp2 & He2).
    cbn zeta in *. fold db in Hl, He.
    cbn [outcome after emitted set_redisClient pool redisClient].
    rewrite !listens_app, Hl, Hl2, app_listen_run, Hp2, He2.
    clear Hrun. clearbody db. cbn. rewrite He. auto.
Qed.

(** C7. The listener is opened only after the store was acquired: a trace of
    [main] that opens the listener starts with the events of a
    [connectToDatabaseWithRetry] that returned the pool, whose last probe
    resolved and which did not open the listener itself. When the store
    fails on every attempt of the budget, the process exits with code 1
    without ever opening the listener. *)
Theorem listener_opens_after_store (w : World) :
  let db := connectToDatabaseWithRetry w in
  let r := main w in
  (listens (emitted r) <> [] ->
   exists p pre t,
     outcome db = Returned p /\
     store_calls (emitted db) = pre ++ [true] /\
     listens (emitted db) = [] /\
     emitted r = emitted db ++ t /\
     pool (after r) = Some p) /\
  ((forall i, (i < Z.to_nat (db_maxRetries (env w)))%nat ->
              exists e, store_reply_at w i = inl e) ->
   outcome r = Exited 1 /\
   listens (emitted r) = [] /\
   exits (emitted r) = [1]).
Proof.
  intros db r.
  destruct (connectToDatabaseWithRetry_cases w) as (Hl & Hx & He & Hc).
  cbn zeta in *. fold db in Hl, Hx, He, Hc.
  split.
  - intros Hlisten.
    destruct Hc as [(p & pre & Ho & Hs)|(e & Ho)].
    + assert (Hrun : connectToDatabaseWithRetry w =
                     mkRun (Returned p) (after db) (emitted db)).
      { rewrite <- Ho. apply run_eta. }
      destruct (connectToRedisWithRetry_returns (set_pool (Some p) (after db)))
        as ((c & Hrc) & _ & _ & _ & Hp2 & _).
      exists p, pre. eexists. unfold r.
      rewrite (main_serving _ _ _ _ _ Hrun Hrc).
      cbn [outcome after emitted set_redisClient pool].
      rewrite Hp2. repeat split; eauto.
    + assert (Hrun : connectToDatabaseWithRetry w =
                     mkRun (Thrown e) (after db) (emitted db)).
      { rewrite <- Ho. apply run_eta. }
      unfold r in Hlisten. rewrite (main_failed _ _ _ _ Hrun) in Hlisten.
      cbn [emitted] in Hlisten. rewrite listens_app, Hl in Hlisten.
      contradiction Hlisten. reflexivity.
  - intros Hfail.
    destruct (connectToDatabaseWithRetry_unreachable w Hfail) as [e Ho].
    assert (Hrun : connectToDatabaseWithRetry w =
                   mkRun (Thrown e) (after db) (emitted db)).
    { rewrite <- Ho. apply run_eta. }
    unfold r. rewrite (main_failed _ _ _ _ Hrun).
    cbn [outcome emitted]. rewrite listens_app, exits_app, Hl, Hx. auto.
Qed.

End Startup.

(** The sample boot where the store answers at once and the cache refuses
    all three connections. *)
Lemma connectToRedisWithRetry_never_throws_witness :
  (let r := connectToRedisWithRetry (sample_boot "3" 0 3) in
   outcome r = Returned None /\
   cache_connects (emitted r) = [false; false; false]) /\
  (let r := main (sample_boot "3" 0 3) in
   outcome r = Returned tt /\
   listens (emitted r) = [inr 5000] /\
   pool (after r) = Some {| pool_config := db_pool_config (sample_env "3") |} /\
   redisClient (after r) = None).
Proof.
  destruct (@connectToRedisWithRetry_never_throws sampleRuntime) as [H1 H2].
  split.
  - apply (H1 (sample_boot "3" 0 3)).
    intros i Hi. exists refused.
    destruct i as [|[|[|i]]]; [reflexivity|reflexivity|reflexivity|lia].
  - apply (H2 (sample_boot "3" 0 3)); reflexivity.
Defined.

(** The sample boot where the store answers on the third attempt, and the
    one where it never answers. *)
Lemma listener_opens_after_store_witness :
  (let db := connectToDatabaseWithRetry (sample_boot "3" 2 0) in
   let r := main (sample_boot "3" 2 0) in
   exists p pre t,
     outcome db = Returned p /\
     store_calls (emitted db) = pre ++ [true] /\
     listens (emitted db) = [] /\
     emitted r = emitted db ++ t /\
     pool (after r) = Some p) /\
  (let r := main (sample_boot "3" 3 0) in
   outcome r = Exited 1 /\ listens (emitted r) = [] /\ exits (emitted r) = [1]).
Proof.
  split.
  - destruct (listener_opens_after_store (sample_boot "3" 2 0)) as [Ha _].
    apply Ha. vm_compute. discriminate.
  - destruct (listener_opens_after_store (sample_boot "3" 3 0)) as [_ Hb].
    apply Hb. intros i Hi. exists refused.
    change (Z.to_nat _) with 3%nat in Hi.
    destruct i as [|[|[|i]]]; [reflexivity|reflexivity|reflexivity|lia].
Defined.

(** ** Health endpoints *)

Section Health.
Context `{JsRuntime}.

Lemma redis_guard_run (w : World) :
  redis_guard w = mkRun (Returned (guarded_client w)) w [].
Proof.
  unfold redis_guard, guarded_client, bind, read, isOpen. cbn.
  destruct (redisClient w); cbn; [|reflexivity].
  destruct (redis_open_at w (ticks w)); reflexivity.
Qed.

Lemma check_database_run (failed : string) (h : HealthCheck) (w : World) :
  check_database failed h w =
  match pool w with
  | None =>
      mkRun
        (Returned (set_status failed
                     (set_check "database" (check_status "Not Initialized") h)))
        w []
  | Some _ =>
      match store_reply_at w 0 with
      | inr _ =>
          mkRun
            (Returned (set_check "database"
                         (check_connected
                            (pg_elapsed (pg_reply w (pg_calls w)))) h))
            (after_store_call w) [EvQuery "SELECT 1" true]
      | inl e =>
          mkRun
            (Returned (set_status failed
                         (set_check "database" (check_error (message e)) h)))
            (after_store_call w) [EvQuery "SELECT 1" false]
      end
  end.
Proof.
  unfold store_reply_at. rewrite Nat.add_0_r.
  unfold check_database, try_catch, bind, Date_now, read, pool_query, pg_call.
  cbn. destruct (pool w) as [p|]; cbn; [|reflexivity].
  destruct (pg_result (pg_reply w (pg_calls w))) as [e|v]; cbn; [reflexivity|].
  rewrite Z.add_simpl_l. reflexivity.
Qed.

Lemma check_redis_run (h : HealthCheck) (w : World) :
  check_redis h w =
  match guarded_client w with
  | None =>
      mkRun (Returned (set_check "redis" (check_status "Not Available") h)) w []
  | Some _ =>
      match cache_error_at w 0 with
      | None =>
          mkRun (Returned (set_check "redis"
                             (check_connected
                                (rd_elapsed (redis_reply w (redis_calls w))))
                             h))
            (after_cache_call w) [EvRedis CmdPing true true]
      | Some e =>
          mkRun (Returned (set_check "redis" (check_error (message e)) h))
            (after_cache_call w) [EvRedis CmdPing true false]
      end
  end.
Proof.
  unfold cache_error_at. rewrite Nat.add_0_r.
  unfold check_redis, guarded_client, try_catch, bind, Date_now, read,
    redis_guard, isOpen, redis_ping, redis_command, redis_call.
  cbn. destruct (redisClient w) as [c|]; cbn; [|reflexivity].
  destruct (redis_open_at w (ticks w)) eqn:Ho; cbn; [|reflexivity].
  rewrite Ho.
  destruct (rd_error (redis_reply w (redis_calls w))) as [e|]; cbn;
    [reflexivity|].
  rewrite Z.add_simpl_l. reflexivity.
Qed.

(** Both health endpoints run the two checks from a fresh report. *)
Lemma checks_run (ok failed : string) (w : World) :
  let h0 := {| hc_status := ok; hc_timestamp := now w; hc_checks := ∅ |} in
  exists h1 w1 ev1 w2 ev2,
    check_database failed h0 w = mkRun (Returned h1) w1 ev1 /\
    check_redis h1 w1 = mkRun (Returned (health_report ok failed w)) w2 ev2 /\
    store_calls (ev1 ++ ev2) =
      match pool w with Some _ => [store_probe_ok w] | None => [] end /\
    Forall (fun c => c.2 = true) (cache_commands (ev1 ++ ev2)).
Proof.
  intros h0. pose proof (check_database_run failed h0 w) as Hdb.
  pose proof (fun h => check_redis_run h (after_database_check w)) as Hrd.
  unfold health_report, store_probe_ok, database_check, redis_check.
  unfold after_database_check in *.
  destruct (pool w) as [p|] eqn:Hp;
    [destruct (store_reply_at w 0) as [e|v] eqn:Hr|];
    (destruct (guarded_client _) as [c|];
     [destruct (cache_error_at _ 0) as [e'|]|]);
    do 5 eexists; (split; [exact Hdb|]); (split; [apply Hrd|]);
    (split; [reflexivity|repeat constructor]).
Qed.

Lemma ready_response (req : Request) (w : World) :
  exists w' ev,
    ready req w =
      mkRun (Returned (res_status_json (if store_probe_ok w then 200 else 503)
                         (BodyHealth (health_report "READY" "NOT_READY" w))))
        w' ev /\
    Forall (fun c => c.2 = true) (cache_commands ev).
Proof.
  destruct (checks_run "READY" "NOT_READY" w)
    as (h1 & w1 & ev1 & w2 & ev2 & Hdb & Hrd & _ & Hc).
  exists w2, (ev1 ++ ev2). split; [|exact Hc].
  unfold ready. erewrite bind_returned by reflexivity.
  cbn [outcome after emitted app].
  rewrite (bind_returned _ _ _ _ _ _ Hdb). cbn [outcome after emitted].
  rewrite (bind_returned _ _ _ _ _ _ Hrd). cbn [outcome after emitted ret].
  rewrite app_nil_r. unfold health_report. cbn [hc_status].
  destruct (store_probe_ok w); reflexivity.
Qed.

Lemma api_health_response (req : Request) (w : World) :
  exists w' ev,
    api_health req w =
      mkRun (Returned (res_json (BodyHealth (health_report "OK" "Error" w))))
        w' ev /\
    Forall (fun c => c.2 = true) (cache_commands ev).
Proof.
  destruct (checks_run "OK" "Error" w)
    as (h1 & w1 & ev1 & w2 & ev2 & Hdb & Hrd & _ & Hc).
  exists w2, (ev1 ++ ev2). split; [|exact Hc].
  unfold api_health. erewrite bind_returned by reflexivity.
  cbn [outcome after emitted app].
  rewrite (bind_returned _ _ _ _ _ _ Hdb). cbn [outcome after emitted].
  rewrite (bind_returned _ _ _ _ _ _ Hrd). cbn [outcome after emitted ret].
  rewrite app_nil_r. reflexivity.
Qed.

Lemma health_report_database (ok failed : string) (w : World) :
  hc_checks (health_report ok failed w) !! "database" = Some (database_check w).
Proof.
  unfold health_report. cbn [hc_checks].
  rewrite lookup_insert_ne by discriminate. apply lookup_insert_eq.
Qed.

Lemma health_report_redis (ok failed : string) (w : World) :
  hc_checks (health_report ok failed w) !! "redis" =
  Some (redis_check (after_database_check w)).
Proof. unfold health_report. cbn [hc_checks]. apply lookup_insert_eq. Qed.

(** Outside its ["redis"] entry, a report is decided by the store side. *)
Lemma health_report_store_side (ok failed : string) (w1 w2 : World) :
  same_store_side w1 w2 ->
  store_probe_ok w1 = store_probe_ok w2 /\
  hc_status (health_report ok failed w1) =
    hc_status (health_report ok failed w2) /\
  hc_timestamp (health_report ok failed w1) =
    hc_timestamp (health_report ok failed w2) /\
  forall k, k <> "redis" ->
    hc_checks (health_report ok failed w1) !! k =
    hc_checks (health_report ok failed w2) !! k.
Proof.
  intros (Hp & Hn & Hr).
  assert (Hok : store_probe_ok w1 = store_probe_ok w2).
  { unfold store_probe_ok, store_reply_at. rewrite !Nat.add_0_r, Hp, Hr.
    reflexivity. }
  assert (Hdb : database_check w1 = database_check w2).
  { unfold database_check, store_reply_at. rewrite !Nat.add_0_r, Hp, Hr.
    reflexivity. }
  unfold health_report. cbn [hc_status hc_timestamp hc_checks].
  rewrite Hok, Hn, Hdb. repeat split.
  intros k Hk. rewrite !(lookup_insert_ne _ "redis" k) by congruence.
  reflexivity.
Qed.

Lemma cache_error_after_database_check (w : World) (i : nat) :
  cache_error_at (after_database_check w) i = cache_error_at w i.
Proof. unfold after_database_check. destruct (pool w); reflexivity. Qed.

(** C3. The readiness endpoint answers 503 with verdict [NOT_READY] exactly
    when the store handle is not established or its probe query fails, and
    200 with verdict [READY] exactly when the handle is there and the probe
    resolves. Two worlds with the same store side get the same status code,
    verdict and timestamp, and the same recorded checks outside the
    ["redis"] entry, whatever the cache handle, its liveness and its
    replies are. *)
Theorem ready_verdict (req : Request) :
  (forall w : World,
     exists resp h,
       outcome (ready req w) = Returned resp /\
       res_body resp = BodyHealth h /\
       ((res_status resp = 503 /\ hc_status h = "NOT_READY") <->
        (pool w = None \/ exists e, store_reply_at w 0 = inl e)) /\
       ((res_status resp = 200 /\ hc_status h = "READY") <->
        (exists p v, pool w = Some p /\ store_reply_at w 0 = inr v))) /\
  (forall w1 w2 : World,
     same_store_side w1 w2 ->
     exists r1 r2 h1 h2,
       outcome (ready req w1) = Returned r1 /\
       outcome (ready req w2) = Returned r2 /\
       res_body r1 = BodyHealth h1 /\ res_body r2 = BodyHealth h2 /\
       res_status r1 = res_status r2 /\
       hc_status h1 = hc_status h2 /\
       hc_timestamp h1 = hc_timestamp h2 /\
       forall k, k <> "redis" -> hc_checks h1 !! k = hc_checks h2 !! k).
Proof.
  split.
  - intros w. destruct (ready_response req w) as (w' & ev & Hrun & _).
    do 2 eexists. rewrite Hrun.
    cbn [outcome res_status_json res_body res_status].
    split; [reflexivity|]. split; [reflexivity|].
    unfold health_report, store_probe_ok. cbn [hc_status].
    destruct (pool w) as [p|]; [destruct (store_reply_at w 0) as [e|v]|].
    + split; split.
      * eauto.
      * auto.
      * intros [? _]. discriminate.
      * intros (? & ? & _ & ?). discriminate.
    + split; split.
      * intros [? _]. discriminate.
      * intros [?|[? ?]]; discriminate.
      * eauto.
      * auto.
    + split; split.
      * auto.
      * auto.
      * intros [? _]. discriminate.
      * intros (? & ? & ? & _). discriminate.
  - intros w1 w2 Hsame.
    destruct (ready_response req w1) as (w1' & ev1 & Hrun1 & _).
    destruct (ready_response req w2) as (w2' & ev2 & Hrun2 & _).
    destruct (health_report_store_side "READY" "NOT_READY" w1 w2 Hsame)
      as (Hok & Hs & Ht & Hk).
    do 4 eexists. rewrite Hrun1, Hrun2.
    cbn [outcome res_status_json res_body res_status].
    repeat (split; [reflexivity|]).
    rewrite Hok. auto.
Qed.

(** C9. The detailed-health endpoint always answers 200, whatever the state
    of the handles and the outcome of the probes. Its body records one entry
    per dependency; a store probe that fails is recorded as an [Error] entry
    with the error's message (and overall status [Error]), a cache probe
    that fails is recorded as an [Error] entry with the error's message, and
    neither makes the handler throw. *)
Theorem api_health_always_200 (req : Request) (w : World) :
  exists h,
    outcome (api_health req w) =
      Returned {| res_status := 200; res_body := BodyHealth h |} /\
    hc_status h = (if store_probe_ok w then "OK" else "Error") /\
    hc_checks h !! "database" = Some (database_check w) /\
    hc_checks h !! "redis" = Some (redis_check (after_database_check w)) /\
    (forall p e, pool w = Some p -> store_reply_at w 0 = inl e ->
       hc_checks h !! "database" = Some (check_error (message e)) /\
       hc_status h = "Error") /\
    (forall c e,
       guarded_client (after_database_check w) = Some c ->
       cache_error_at w 0 = Some e ->
       hc_checks h !! "redis" = Some (check_error (message e))).
Proof.
  destruct (api_health_response req w) as (w' & ev & Hrun & _).
  eexists. rewrite Hrun. cbn [outcome]. split; [reflexivity|].
  rewrite health_report_database, health_report_redis.
  split; [reflexivity|]. split; [reflexivity|]. split; [reflexivity|]. split.
  - intros p e Hp He. split.
    + unfold database_check. rewrite Hp, He. reflexivity.
    + unfold health_report, store_probe_ok. cbn [hc_status].
      rewrite Hp, He. reflexivity.
  - intros c e Hc He. unfold redis_check.
    rewrite Hc, cache_error_after_database_check, He. reflexivity.
Qed.

End Health.

(** ** The cache-aside read *)

Section Users.
Context `{JsRuntime}.

Local Ltac run_found := eexists; (split; [reflexivity|]); split; reflexivity.

(** Split the trace of the goal into its known events and its named parts. *)
Local Ltac split_trace :=
  repeat match goal with
         | |- context [?x :: ?l] =>
             lazymatch l with
             | [] => fail
             | _ => change (x :: l) with ([x] ++ l)
             end
         end;
  autorewrite with trace.

Local Ltac open_client :=
  unfold on_open_client in *; split_trace;
  repeat first [assumption | apply Forall_app_2 | (cbn; constructor)].

Lemma users_cache_read_run (req : Request) (dbStart : Z) (w : World) :
  exists ev,
    users_cache_read req dbStart w =
      mkRun (Returned (match cached_users w with
                       | Some v => Some (res_json (BodyJson v))
                       | None => None
                       end))
        (after_cache_read w) ev /\
    store_calls ev = [] /\
    cache_commands ev =
      match guarded_client w with
      | Some _ => [(CmdGet cacheKey, true)]
      | None => []
      end.
Proof.
  unfold users_cache_read, cached_users, after_cache_read.
  erewrite bind_returned by apply redis_guard_run.
  cbn [outcome after emitted app].
  destruct (guarded_client w) as [c|] eqn:Hg; [|run_found].
  assert (Ho : redis_open_at w (ticks w) = true).
  { unfold guarded_client in Hg. destruct (redisClient w); [|discriminate].
    destruct (redis_open_at w (ticks w)); [reflexivity|discriminate]. }
  unfold cache_error_at, after_cache_call. rewrite Nat.add_0_r.
  unfold redis_get, redis_command, redis_call, isOpen, json_parse, read,
    try_catch, bind.
  cbn. rewrite Ho.
  destruct (rd_error (redis_reply w (redis_calls w))) as [e|]; cbn;
    [run_found|].
  destruct (live_entry cacheKey _) as [[|ch rest]|]; cbn;
    [run_found| |run_found].
  destruct (JSON_parse (String ch rest)) as [e|v]; cbn;
    run_found.
Qed.

Lemma users_cache_write_run (rows : JsValue) (w : World) :
  exists ev,
    users_cache_write rows w =
      mkRun (Returned tt) (after_cache_write rows w) ev /\
    store_calls ev = [] /\
    cache_commands ev =
      match guarded_client w with
      | Some _ => [(CmdSetEx cacheKey 300 (JSON_stringify rows), true)]
      | None => []
      end.
Proof.
  unfold users_cache_write, after_cache_write.
  erewrite bind_returned by apply redis_guard_run.
  cbn [outcome after emitted app].
  destruct (guarded_client w) as [c|] eqn:Hg; [|run_found].
  assert (Ho : redis_open_at w (ticks w) = true).
  { unfold guarded_client in Hg. destruct (redisClient w); [|discriminate].
    destruct (redis_open_at w (ticks w)); [reflexivity|discriminate]. }
  unfold cache_error_at, after_cache_call. rewrite Nat.add_0_r.
  unfold redis_setEx, redis_command, redis_call, isOpen, read, write,
    try_catch, bind.
  cbn. rewrite Ho.
  destruct (rd_error (redis_reply w (redis_calls w))) as [e|]; cbn;
    run_found.
Qed.

Lemma after_cache_read_store (w : World) (i : nat) :
  store_reply_at (after_cache_read w) i = store_reply_at w i.
Proof. unfold after_cache_read. destruct (guarded_client w); reflexivity. Qed.

Lemma pool_query_run (p : Pool) (sql : string) (w : World) :
  pool_query p sql w =
  match store_reply_at w 0 with
  | inl e => mkRun (Thrown e) (after_store_call w) [EvQuery sql false]
  | inr v => mkRun (Returned v) (after_store_call w) [EvQuery sql true]
  end.
Proof.
  unfold store_reply_at. rewrite Nat.add_0_r. reflexivity.
Qed.

(** The four ways a read of [/api/users] goes. *)
Lemma api_users_run (req : Request) (w : World) :
  match pool w with
  | None =>
      api_users req w =
        mkRun
          (Returned (res_status_json 503 (BodyError "Database not available")))
          w [EvTimerStart; EvTimerEnd (method req) "/api/users" 503]
  | Some _ =>
      match cached_users w with
      | Some v =>
          exists ev,
            api_users req w =
              mkRun (Returned (res_json (BodyJson v)))
                (after_cache_read w) ev /\
            store_calls ev = [] /\ on_open_client ev
      | None =>
          match store_reply_at w 0 with
          | inl e =>
              exists ev,
                api_users req w =
                  mkRun (Returned (res_status_json 500
                                     (BodyError "Internal server error")))
                    (after_store_call (after_cache_read w)) ev /\
                store_calls ev = [false] /\ on_open_client ev
          | inr rows =>
              exists ev,
                api_users req w =
                  mkRun (Returned (res_json (BodyJson rows)))
                    (after_cache_write rows
                       (after_store_call (after_cache_read w))) ev /\
                store_calls ev = [true] /\ on_open_client ev
          end
      end
  end.
Proof.
  unfold api_users.
  erewrite bind_returned by reflexivity. cbn [outcome after emitted].
  erewrite bind_returned by reflexivity. cbn [outcome after emitted].
  destruct (pool w) as [p|] eqn:Hp.
  2: { erewrite try_catch_returned.
       2: { erewrite bind_returned by reflexivity. rewrite Hp. reflexivity. }
       reflexivity. }
  destruct (users_cache_read_run req (now w) w) as (ev1 & Hrun1 & Hs1 & Hc1).
  assert (Hopen1 : on_open_client ev1).
  { unfold on_open_client. rewrite Hc1.
    destruct (guarded_client w); repeat constructor. }
  pose proof (pool_query_run p "SELECT * FROM users ORDER BY id"
                (after_cache_read w)) as Hq.
  rewrite after_cache_read_store in Hq.
  destruct (cached_users w) as [v|].
  - eexists. split.
    + erewrite try_catch_returned.
      2: { erewrite bind_returned by reflexivity. rewrite Hp.
           cbn [outcome after emitted app].
           rewrite (bind_returned _ _ _ _ _ _ Hrun1). reflexivity. }
      reflexivity.
    + cbn. split; [split_trace; rewrite Hs1; reflexivity|]. open_client.
  - destruct (store_reply_at w 0) as [e|rows].
    + eexists. split.
      * erewrite try_catch_thrown.
        2: { erewrite bind_returned by reflexivity. rewrite Hp.
             cbn [outcome after emitted app].
             rewrite (bind_returned _ _ _ _ _ _ Hrun1).
             cbn [outcome after emitted].
             rewrite (bind_thrown _ _ _ _ _ _ Hq). reflexivity. }
        reflexivity.
      * cbn. split; [split_trace; rewrite Hs1; reflexivity|].
        open_client.
    + destruct (users_cache_write_run rows
                  (after_store_call (after_cache_read w)))
        as (ev2 & Hrun2 & Hs2 & Hc2).
      assert (Hopen2 : on_open_client ev2).
      { unfold on_open_client. rewrite Hc2.
        destruct (guarded_client (after_store_call (after_cache_read w)));
          repeat constructor. }
      eexists. split.
      * erewrite try_catch_returned.
        2: { erewrite bind_returned by reflexivity. rewrite Hp.
             cbn [outcome after emitted app].
             rewrite (bind_returned _ _ _ _ _ _ Hrun1).
             cbn [outcome after emitted].
             rewrite (bind_returned _ _ _ _ _ _ Hq).
             cbn [outcome after emitted].
             rewrite (bind_returned _ _ _ _ _ _ Hrun2). reflexivity. }
        reflexivity.
      * cbn. split; [split_trace; rewrite Hs1, Hs2; reflexivity|].
        open_client.
Qed.

(** C8. [/api/users] answers 503 exactly when the store handle was never
    established; it answers 500 exactly when it issued the store query and
    the query failed (the handle is there, the cache gave no value and the
    store rejects the query), and then the body is the fixed message, the
    same for every error; in every other case it answers 200 with a JSON
    payload. The handler never throws. *)
Theorem api_users_status (req : Request) (w : World) :
  let r := api_users req w in
  exists resp,
    outcome r = Returned resp /\
    (res_status resp = 503 <-> pool w = None) /\
    (res_status resp = 500 <-> store_calls (emitted r) = [false]) /\
    (res_status resp = 500 <->
       exists p e, pool w = Some p /\ cached_users w = None /\
                   store_reply_at w 0 = inl e) /\
    (res_status resp = 500 ->
       res_body resp = BodyError "Internal server error") /\
    (res_status resp <> 503 -> res_status resp <> 500 ->
       res_status resp = 200 /\ exists v, res_body resp = BodyJson v).
Proof.
  pose proof (api_users_run req w) as Hrun. cbn zeta.
  destruct (pool w) as [p|];
    [destruct (cached_users w) as [v|];
     [|destruct (store_reply_at w 0) as [e|rows]]|].
  - destruct Hrun as (ev & -> & Hs & _). eexists. split; [reflexivity|].
    cbn [outcome emitted res_json res_status_json res_status res_body].
    rewrite Hs. repeat split; try discriminate; eauto.
    intros (? & ? & _ & ? & _). discriminate.
  - destruct Hrun as (ev & -> & Hs & _). eexists. split; [reflexivity|].
    cbn [outcome emitted res_json res_status_json res_status res_body].
    rewrite Hs. repeat split; try discriminate; eauto; congruence.
  - destruct Hrun as (ev & -> & Hs & _). eexists. split; [reflexivity|].
    cbn [outcome emitted res_json res_status_json res_status res_body].
    rewrite Hs. repeat split; try discriminate; eauto.
    intros (? & ? & _ & _ & ?). discriminate.
  - rewrite Hrun. eexists. split; [reflexivity|].
    cbn [outcome emitted res_json res_status_json res_status res_body].
    repeat split; try discriminate; eauto; try congruence.
    intros (? & ? & ? & _). discriminate.
Qed.

(** C4. With the store handle established, the read never throws and
    answers 200 unless the store query itself failed. A cache [get] that
    errors is a miss: the store is queried and its rows are returned. After
    a successful store read the answer is the rows whether the cache
    [setEx] is skipped, resolves or errors; when it errors nothing is
    cached. *)
Theorem cache_errors_absorbed (req : Request) (w : World) (p : Pool) :
  pool w = Some p ->
  let r := api_users req w in
  (exists resp,
     outcome r = Returned resp /\
     (res_status resp = 200 \/
      (res_status resp = 500 /\ store_calls (emitted r) = [false] /\
       exists e, store_reply_at w 0 = inl e))) /\
  (forall c e rows,
     guarded_client w = Some c -> cache_error_at w 0 = Some e ->
     store_reply_at w 0 = inr rows ->
     outcome r = Returned (res_json (BodyJson rows)) /\
     store_calls (emitted r) = [true]) /\
  (forall rows,
     cached_users w = None -> store_reply_at w 0 = inr rows ->
     outcome r = Returned (res_json (BodyJson rows)) /\
     forall c e,
       guarded_client (after_store_call (after_cache_read w)) = Some c ->
       cache_error_at (after_store_call (after_cache_read w)) 0 = Some e ->
       redis_data (after r) = redis_data w).
Proof.
  intros Hp r. pose proof (api_users_run req w) as Hrun. rewrite Hp in Hrun.
  split; [|split].
  - destruct (cached_users w) as [v|];
      [|destruct (store_reply_at w 0) as [e|rows]];
      destruct Hrun as (ev & Hr & Hs & _); unfold r; rewrite Hr;
      eexists; (split; [reflexivity|]); cbn; eauto 10.
  - intros c e rows Hg He Hrows.
    assert (Hmiss : cached_users w = None).
    { unfold cached_users. rewrite Hg, He. reflexivity. }
    rewrite Hmiss, Hrows in Hrun. destruct Hrun as (ev & Hr & Hs & _).
    unfold r. rewrite Hr. auto.
  - intros rows Hmiss Hrows. rewrite Hmiss, Hrows in Hrun.
    destruct Hrun as (ev & Hr & Hs & _). unfold r. rewrite Hr.
    split; [reflexivity|]. intros c e Hg He. cbn [after].
    unfold after_cache_write. rewrite Hg, He.
    unfold after_cache_read. destruct (guarded_client w); reflexivity.
Qed.

End Users.

(** ** Cache-aside reads over a JSON codec that round-trips *)

Section CacheAside.
Context `{JsRuntime}.

(** [JSON.stringify] of serialisable data is never the empty string, and
    [JSON.parse] reads it back to a value with the same serialisation. *)
Hypothesis stringify_truthy : forall v, JSON_stringify v <> "".
Hypothesis parse_stringify :
  forall v, exists v', JSON_parse (JSON_stringify v) = inr v' /\
                       JSON_stringify v' = JSON_stringify v.

Lemma guarded_client_open (w : World) (c : RedisClient) :
  redisClient w = Some c -> redis_open_at w (ticks w) = true ->
  guarded_client w = Some c.
Proof. unfold guarded_client. intros -> ->. reflexivity. Qed.

(** A live entry that holds a serialised snapshot is a hit. *)
Lemma cached_users_snapshot (w : World) (c : RedisClient) (snapshot : JsValue)
    (expiresAt : Z) :
  guarded_client w = Some c ->
  cache_error_at w 0 = None ->
  redis_data w !! cacheKey = Some (JSON_stringify snapshot, expiresAt) ->
  now (after_cache_call w) < expiresAt ->
  exists v, cached_users w = Some v /\
            JSON_stringify v = JSON_stringify snapshot.
Proof.
  intros Hg He Hd Hlive. unfold cached_users, live_entry.
  rewrite Hg, He. cbn [redis_data after_cache_call suspend count_redis_call].
  rewrite Hd. fold (after_cache_call w).
  replace (now (after_cache_call w) <? expiresAt) with true by lia.
  destruct (parse_stringify snapshot) as (v & Hv & Hs).
  pose proof (stringify_truthy snapshot) as Hne.
  destruct (JSON_stringify snapshot) as [|ch rest] eqn:E; [congruence|].
  rewrite Hv. eauto.
Qed.

(** C5. When the guard on the cache client holds, the [get] resolves and the
    cache holds an unexpired entry for the key (a serialised snapshot), the
    read answers with the cached value and issues no store query. Hence two
    consecutive reads, the first a miss answered by the store, with an open
    client whose calls resolve, nothing but time between them and the second
    within the 300 seconds of the entry, query the store exactly once: the
    second read is answered from the cache with the same serialised rows. *)
Theorem cache_aside_reads (req : Request) :
  (forall (w : World) p c snapshot expiresAt,
     pool w = Some p ->
     guarded_client w = Some c ->
     cache_error_at w 0 = None ->
     redis_data w !! cacheKey = Some (JSON_stringify snapshot, expiresAt) ->
     now (after_cache_call w) < expiresAt ->
     let r := api_users req w in
     (exists v, outcome r = Returned (res_json (BodyJson v)) /\
                JSON_stringify v = JSON_stringify snapshot) /\
     store_calls (emitted r) = []) /\
  (forall (w : World) p c rows gap,
     pool w = Some p ->
     redisClient w = Some c ->
     (forall t, redis_open_at w t = true) ->
     (forall i, (i < 3)%nat -> cache_error_at w i = None) ->
     cached_users w = None ->
     store_reply_at w 0 = inr rows ->
     gap + rd_elapsed (redis_reply w (redis_calls w + 2)%nat) < 300 * 1000 ->
     let r1 := api_users req w in
     let r2 := api_users req (suspend gap (after r1)) in
     outcome r1 = Returned (res_json (BodyJson rows)) /\
     store_calls (emitted r1) = [true] /\
     (exists v, outcome r2 = Returned (res_json (BodyJson v)) /\
                JSON_stringify v = JSON_stringify rows) /\
     store_calls (emitted r2) = [] /\
     store_calls (emitted r1 ++ emitted r2) = [true]).
Proof.
  split.
  - intros w p c snapshot expiresAt Hp Hg He Hd Hlive r.
    destruct (cached_users_snapshot w c snapshot expiresAt Hg He Hd Hlive)
      as (v & Hhit & Hv).
    pose proof (api_users_run req w) as Hrun. rewrite Hp, Hhit in Hrun.
    destruct Hrun as (ev & Hr & Hs & _). unfold r. rewrite Hr. eauto.
  - intros w p c rows gap Hp Hc Hopen Herr Hmiss Hrows Hgap r1 r2.
    pose proof (api_users_run req w) as Hrun1.
    rewrite Hp, Hmiss, Hrows in Hrun1.
    destruct Hrun1 as (ev1 & Hr1 & Hs1 & _).
    assert (Hg0 : guarded_client w = Some c)
      by (apply guarded_client_open; auto).
    assert (Hw1 : after_cache_read w = after_cache_call w)
      by (unfold after_cache_read; rewrite Hg0; reflexivity).
    set (w2 := after_store_call (after_cache_call w)).
    assert (Hg2 : guarded_client w2 = Some c)
      by (apply guarded_client_open; [exact Hc|apply Hopen]).
    assert (He2 : cache_error_at w2 0 = None).
    { rewrite <- (Herr 1%nat) by lia. unfold cache_error_at, w2. cbn.
      f_equal. f_equal. lia. }
    set (w3 := set_redis_data
                 (<[cacheKey := (JSON_stringify rows,
                                 now (after_cache_call w2) + 300 * 1000)]>
                    (redis_data w2))
                 (after_cache_call w2)).
    assert (Hafter : after r1 = w3).
    { unfold r1. rewrite Hr1. cbn [after]. rewrite Hw1. fold w2.
      unfold after_cache_write. rewrite Hg2, He2. reflexivity. }
    set (w4 := suspend gap w3).
    assert (Hhit : exists v, cached_users w4 = Some v /\
                             JSON_stringify v = JSON_stringify rows).
    { apply (cached_users_snapshot w4 c rows
               (now (after_cache_call w2) + 300 * 1000)).
      - apply guarded_client_open; [exact Hc|apply Hopen].
      - rewrite <- (Herr 2%nat) by lia. unfold cache_error_at, w4, w3, w2. cbn.
        f_equal. f_equal. lia.
      - unfold w4, w3. cbn [redis_data suspend set_redis_data].
        apply lookup_insert_eq.
      - unfold w4, w3, w2. cbn.
        replace (S (S (redis_calls w))) with (redis_calls w + 2)%nat by lia.
        lia. }
    destruct Hhit as (v & Hhit & Hv).
    pose proof (api_users_run req w4) as Hrun2.
    replace (pool w4) with (Some p) in Hrun2 by (symmetry; exact Hp).
    rewrite Hhit in Hrun2. destruct Hrun2 as (ev2 & Hr2 & Hs2 & _).
    unfold r2. rewrite Hafter. fold w4. rewrite Hr2.
    unfold r1. rewrite Hr1. cbn [outcome emitted].
    rewrite store_calls_app, Hs1, Hs2. eauto 10.
Qed.

End CacheAside.

(** ** Shutdown *)

Section Shutdown.
Context `{JsRuntime}.

(** The store release: skipped, resolved or rejected. *)
Lemma release_store_run (w : World) :
  match pool w with
  | Some pool => (pool_end pool;; console LogDbClosed)%js
  | None => ret tt
  end w =
  match pool w with
  | None => mkRun (Returned tt) w []
  | Some _ =>
      match store_reply_at w 0 with
      | inr _ =>
          mkRun (Returned tt) (after_store_call w)
            [EvPoolEnd true; EvLog LogDbClosed]
      | inl e => mkRun (Thrown e) (after_store_call w) [EvPoolEnd false]
      end
  end.
Proof.
  unfold store_reply_at. rewrite Nat.add_0_r.
  destruct (pool w); [|reflexivity].
  unfold pool_end, pg_call, console, emit, bind. cbn.
  destruct (pg_result (pg_reply w (pg_calls w))); reflexivity.
Qed.

(** The cache release: skipped, resolved or rejected. *)
Lemma release_cache_run (w : World) :
  match guarded_client w with
  | Some client => (redis_quit client;; console LogRedisClosed)%js
  | None => ret tt
  end w =
  match guarded_client w with
  | None => mkRun (Returned tt) w []
  | Some _ =>
      match cache_error_at w 0 with
      | None =>
          mkRun (Returned tt) (after_cache_call w)
            [EvRedis CmdQuit true true; EvLog LogRedisClosed]
      | Some e =>
          mkRun (Thrown e) (after_cache_call w) [EvRedis CmdQuit true false]
      end
  end.
Proof.
  destruct (guarded_client w) as [c|] eqn:Hg; [|reflexivity].
  assert (Ho : redis_open_at w (ticks w) = true).
  { unfold guarded_client in Hg. destruct (redisClient w); [|discriminate].
    destruct (redis_open_at w (ticks w)); [reflexivity|discriminate]. }
  unfold cache_error_at. rewrite Nat.add_0_r.
  unfold redis_quit, redis_command, redis_call, isOpen, console, emit, read,
    bind.
  cbn. rewrite Ho.
  destruct (rd_error (redis_reply w (redis_calls w))); reflexivity.
Qed.

(** The handler: the store release, then the cache release, then exit 0;
    a release that rejects ends the handler there. *)
Lemma on_SIGTERM_run (w : World) :
  on_SIGTERM w =
  match pool w, store_reply_at w 0 with
  | Some _, inl e =>
      mkRun (Thrown e) (after_store_call w) [EvLog LogSigterm; EvPoolEnd false]
  | _, _ =>
      let w1 := after_store_release w in
      let released :=
        EvLog LogSigterm ::
        match pool w with
        | Some _ => [EvPoolEnd true; EvLog LogDbClosed]
        | None => []
        end in
      match guarded_client w1 with
      | None => mkRun (Exited 0) w1 (released ++ [EvExit 0])
      | Some _ =>
          match cache_error_at w1 0 with
          | None =>
              mkRun (Exited 0) (after_cache_call w1)
                (released ++
                 [EvRedis CmdQuit true true; EvLog LogRedisClosed; EvExit 0])
          | Some e =>
              mkRun (Thrown e) (after_cache_call w1)
                (released ++ [EvRedis CmdQuit true false])
          end
      end
  end.
Proof.
  unfold on_SIGTERM.
  erewrite bind_returned by reflexivity. cbn [outcome after emitted].
  erewrite bind_returned by reflexivity. cbn [outcome after emitted].
  pose proof (release_store_run w) as Hs. unfold after_store_release.
  assert (Hrest : forall w1 : World,
    (c <- redis_guard;;
     match c with
     | Some client => redis_quit client;; console LogRedisClosed
     | None => ret tt
     end;; process_exit (A:=unit) 0) w1 =
    match guarded_client w1 with
    | None => mkRun (Exited 0) w1 [EvExit 0]
    | Some _ =>
        match cache_error_at w1 0 with
        | None =>
            mkRun (Exited 0) (after_cache_call w1)
              [EvRedis CmdQuit true true; EvLog LogRedisClosed; EvExit 0]
        | Some e =>
            mkRun (Thrown e) (after_cache_call w1) [EvRedis CmdQuit true false]
        end
    end).
  { intros w1. erewrite bind_returned by apply redis_guard_run.
    cbn [outcome after emitted app].
    pose proof (release_cache_run w1) as Hc.
    destruct (guarded_client w1); [destruct (cache_error_at w1 0)|].
    - rewrite (bind_thrown _ _ _ _ _ _ Hc). reflexivity.
    - rewrite (bind_returned _ _ _ _ _ _ Hc). reflexivity.
    - rewrite (bind_returned _ _ _ _ _ _ Hc). reflexivity. }
  destruct (pool w) as [p|]; [destruct (store_reply_at w 0) as [e|v]|].
  - rewrite (bind_thrown _ _ _ _ _ _ Hs). reflexivity.
  - rewrite (bind_returned _ _ _ _ _ _ Hs). cbn [outcome after emitted].
    rewrite Hrest.
    destruct (guarded_client (after_store_call w));
      [destruct (cache_error_at (after_store_call w) 0)|]; reflexivity.
  - rewrite (bind_returned _ _ _ _ _ _ Hs). cbn [outcome after emitted].
    rewrite Hrest.
    destruct (guarded_client w); [destruct (cache_error_at w 0)|]; reflexivity.
Qed.

Lemma cache_error_after_store_release (w : World) (i : nat) :
  cache_error_at (after_store_release w) i = cache_error_at w i.
Proof. unfold after_store_release. destruct (pool w); reflexivity. Qed.

(** C2, as the handler is written. The SIGTERM handler releases the store
    handle first, when it is there, and the cache handle second, when it is
    there and open: the releases of a trace are at most the store's followed
    by at most the cache's. When no release call rejects, both releases that
    are due are made, in that order, and the process exits with code 0. *)
Theorem on_SIGTERM_store_then_cache (w : World) :
  let r := on_SIGTERM w in
  (exists s c,
     releases (emitted r) = s ++ c /\
     (s = [] \/ s = [Store]) /\ (c = [] \/ c = [Cache])) /\
  ((forall p, pool w = Some p -> exists v, store_reply_at w 0 = inr v) ->
   (forall c, guarded_client (after_store_release w) = Some c ->
              cache_error_at w 0 = None) ->
   outcome r = Exited 0 /\
   exits (emitted r) = [0] /\
   releases (emitted r) =
     match pool w with Some _ => [Store] | None => [] end ++
     match guarded_client (after_store_release w) with
     | Some _ => [Cache]
     | None => []
     end).
Proof.
  cbn zeta. rewrite on_SIGTERM_run.
  pose proof (cache_error_after_store_release w 0) as Hce.
  unfold after_store_release in *.
  destruct (pool w) as [p|]; [destruct (store_reply_at w 0) as [e|v]|].
  - split.
    + exists [Store], []. cbn. auto.
    + intros Hs _. destruct (Hs p eq_refl) as [v Hv]. discriminate.
  - cbn zeta. rewrite Hce.
    destruct (guarded_client (after_store_call w)) as [c|];
      [destruct (cache_error_at w 0) as [e|]|]; cbn.
    + split; [exists [Store], [Cache]; auto|].
      intros _ Hc. specialize (Hc c eq_refl). discriminate.
    + split; [exists [Store], [Cache]; auto|]. auto.
    + split; [exists [Store], []; auto|]. auto.
  - cbn zeta.
    destruct (guarded_client w) as [c|];
      [destruct (cache_error_at w 0) as [e|]|]; cbn.
    + split; [exists [], [Cache]; auto|].
      intros _ Hc. specialize (Hc c eq_refl). discriminate.
    + split; [exists [], [Cache]; auto|]. auto.
    + split; [exists [], []; auto|]. auto.
Qed.

End Shutdown.

(** While serving with both handles and no failing release, the store is
    released first. *)
Lemma on_SIGTERM_store_then_cache_witness :
  let r := on_SIGTERM serving in
  outcome r = Exited 0 /\
  exits (emitted r) = [0] /\
  releases (emitted r) = [Store; Cache].
Proof.
  destruct (on_SIGTERM_store_then_cache serving) as [_ Hok].
  apply Hok.
  - intros p _. exists sample_rows. reflexivity.
  - intros c _. reflexivity.
Defined.

(** The specification asks for the cache before the store and for exit
    code 0 whatever the releases do. While serving with both handles, the
    releases are not in that order; and when [pool.end()] rejects, the
    handler does not exit with code 0. *)
Lemma on_SIGTERM_cache_first_counterexample :
  releases (emitted (on_SIGTERM serving)) <> [Cache; Store] /\
  outcome (on_SIGTERM serving_store_down) <> Exited 0.
Proof. split; vm_compute; discriminate. Qed.

(** ** The guard on the cache client *)

Section Guard.
Context `{JsRuntime}.
Variable c : RedisClient.

Lemma blind_ret {A} (a : A) : blind_to_closed_client c (ret a).
Proof. intros w Hc Hn. cbn. auto. Qed.

Lemma blind_emit (e : Event) :
  cache_commands [e] = [] -> blind_to_closed_client c (emit e).
Proof. intros He w Hc Hn. cbn [emit outcome after emitted]. auto. Qed.

Lemma blind_process_exit {A} (code : Z) :
  blind_to_closed_client c (process_exit (A:=A) code).
Proof. intros w Hc Hn. cbn. auto. Qed.

Lemma blind_read {A} (f : World -> A) :
  (forall x w, f (set_redisClient x w) = f w) ->
  blind_to_closed_client c (read f).
Proof.
  intros Hf w Hc Hn. unfold read. cbn [outcome after emitted].
  rewrite Hf. auto.
Qed.

Lemma blind_pg_call (ev : bool -> Event) :
  (forall b, cache_commands [ev b] = []) ->
  blind_to_closed_client c (pg_call ev).
Proof.
  intros Hev w Hc Hn. unfold pg_call.
  cbn [pg_reply pg_calls set_redisClient].
  destruct (pg_result (pg_reply w (pg_calls w)));
    cbn [outcome after emitted]; repeat split; auto.
Qed.

Lemma blind_bind {A B} (m : M A) (k : A -> M B) :
  blind_to_closed_client c m ->
  (forall a, blind_to_closed_client c (k a)) ->
  blind_to_closed_client c (bind m k).
Proof.
  intros Hm Hk w Hc Hn. destruct (Hm w Hc Hn) as (E1 & Hc1 & Hn1 & Hx1).
  unfold bind. rewrite E1.
  destruct (m w) as [[a|e|code] w1 ev1]; cbn [outcome after emitted] in *;
    auto.
  destruct (Hk a w1 Hc1 Hn1) as (E2 & Hc2 & Hn2 & Hx2). rewrite E2.
  destruct (k a w1) as [o w2 ev2]; cbn [outcome after emitted] in *.
  rewrite cache_commands_app, Hx1, Hx2. auto.
Qed.

Lemma blind_try_catch {A} (m : M A) (h : JsError -> M A) :
  blind_to_closed_client c m ->
  (forall e, blind_to_closed_client c (h e)) ->
  blind_to_closed_client c (try_catch m h).
Proof.
  intros Hm Hh w Hc Hn. destruct (Hm w Hc Hn) as (E1 & Hc1 & Hn1 & Hx1).
  unfold try_catch. rewrite E1.
  destruct (m w) as [[a|e|code] w1 ev1]; cbn [outcome after emitted] in *;
    auto.
  destruct (Hh e w1 Hc1 Hn1) as (E2 & Hc2 & Hn2 & Hx2). rewrite E2.
  destruct (h e w1) as [o w2 ev2]; cbn [outcome after emitted] in *.
  rewrite cache_commands_app, Hx1, Hx2. auto.
Qed.

(** With a closed client, and with none, the guard fails: only the branch
    of an absent client runs. *)
Lemma blind_guard {A} (k : option RedisClient -> M A) :
  blind_to_closed_client c (k None) ->
  blind_to_closed_client c (bind redis_guard k).
Proof.
  intros Hk w Hc Hn. destruct (Hk w Hc Hn) as (E & Hc' & Hn' & Hx).
  assert (G0 : guarded_client w = None)
    by (unfold guarded_client; rewrite Hn; reflexivity).
  assert (G1 : guarded_client (set_redisClient (Some c) w) = None).
  { unfold guarded_client. cbn. rewrite (Hc (ticks w)). reflexivity. }
  pose proof (redis_guard_run w) as R0. rewrite G0 in R0.
  pose proof (redis_guard_run (set_redisClient (Some c) w)) as R1.
  rewrite G1 in R1.
  rewrite (bind_returned _ _ _ _ _ _ R0), (bind_returned _ _ _ _ _ _ R1).
  cbn [outcome after emitted app]. rewrite E. auto.
Qed.

(** Walk a handler: every step is blind, and below a guard only the branch
    of an absent client is walked. *)
Local Ltac blind_walk :=
  repeat first
    [ apply blind_ret
    | apply blind_process_exit
    | apply blind_emit; reflexivity
    | apply blind_read; reflexivity
    | apply blind_pg_call; reflexivity
    | apply blind_guard; cbn beta iota
    | apply blind_bind
    | apply blind_try_catch
    | match goal with
      | |- blind_to_closed_client _ (match ?x with _ => _ end) => destruct x
      | |- forall _, _ => intro
      end ].

Lemma api_users_blind (req : Request) :
  blind_to_closed_client c (api_users req).
Proof.
  unfold api_users, users_cache_read, users_cache_write, pool_query, console,
    Date_now.
  blind_walk.
Qed.

Lemma ready_blind (req : Request) : blind_to_closed_client c (ready req).
Proof.
  unfold ready, check_database, check_redis, pool_query, console, Date_now.
  blind_walk.
Qed.

Lemma api_health_blind (req : Request) :
  blind_to_closed_client c (api_health req).
Proof.
  unfold api_health, check_database, check_redis, pool_query, console, Date_now.
  blind_walk.
Qed.

Lemma on_SIGTERM_blind : blind_to_closed_client c on_SIGTERM.
Proof.
  unfold on_SIGTERM, pool_end, console.
  blind_walk.
Qed.

Lemma blind_same_as_absent {A} (m : M A) (w : World) :
  blind_to_closed_client c m -> closed_client w -> same_as_absent c m w.
Proof.
  intros Hm Hc.
  destruct (Hm (set_redisClient None w) Hc eq_refl) as (E & _ & _ & Hx).
  unfold same_as_absent. cbn zeta.
  change (set_redisClient (Some c) w)
    with (set_redisClient (Some c) (set_redisClient None w)).
  rewrite E. cbn [outcome after emitted]. auto.
Qed.

End Guard.

Section Consumers.
Context `{JsRuntime}.

Lemma api_users_open (req : Request) (w : World) :
  on_open_client (emitted (api_users req w)).
Proof.
  pose proof (api_users_run req w) as Hrun.
  destruct (pool w) as [p|];
    [destruct (cached_users w) as [v|];
     [|destruct (store_reply_at w 0) as [e|rows]]|].
  - destruct Hrun as (ev & -> & _ & Ho). exact Ho.
  - destruct Hrun as (ev & -> & _ & Ho). exact Ho.
  - destruct Hrun as (ev & -> & _ & Ho). exact Ho.
  - rewrite Hrun. repeat constructor.
Qed.

Lemma on_SIGTERM_open (w : World) : on_open_client (emitted (on_SIGTERM w)).
Proof.
  rewrite on_SIGTERM_run. unfold on_open_client.
  destruct (pool w) as [p|]; [destruct (store_reply_at w 0) as [e|v]|];
    cbn zeta;
    try (destruct (guarded_client _) as [c|];
         [destruct (cache_error_at _ 0) as [e'|]|]);
    repeat constructor.
Qed.

(** A closed client is recorded as not available. *)
Lemma closed_client_not_available (ok failed : string) (w : World)
    (client : option RedisClient) :
  closed_client w ->
  hc_checks (health_report ok failed (set_redisClient client w)) !! "redis" =
  Some (check_status "Not Available").
Proof.
  intros Hc. rewrite health_report_redis. f_equal.
  unfold redis_check, guarded_client, after_database_check.
  destruct (pool (set_redisClient client w)); cbn;
    destruct client; try reflexivity; rewrite Hc; reflexivity.
Qed.

(** C10. Every consumer of the cache handle guards on the handle and on its
    liveness flag. In every world, every command that the read path, the
    readiness and detailed-health endpoints and the SIGTERM handler issue on
    the client is issued while [isOpen] holds. With a client that is closed
    at every suspension point, each of the four behaves as with no client:
    the same outcome, the same events, the same world but for the handle,
    and no command on the cache (no [get], [setEx], [ping] or [quit]); the
    two health endpoints record the cache as [Not Available]. *)
Theorem closed_client_is_absent (req : Request) :
  (forall w : World,
     on_open_client (emitted (api_users req w)) /\
     on_open_client (emitted (ready req w)) /\
     on_open_client (emitted (api_health req w)) /\
     on_open_client (emitted (on_SIGTERM w))) /\
  (forall (w : World) (c : RedisClient),
     closed_client w ->
     same_as_absent c (api_users req) w /\
     same_as_absent c (ready req) w /\
     same_as_absent c (api_health req) w /\
     same_as_absent c on_SIGTERM w /\
     (exists code h,
        outcome (ready req (set_redisClient (Some c) w)) =
          Returned (res_status_json code (BodyHealth h)) /\
        hc_checks h !! "redis" = Some (check_status "Not Available")) /\
     (exists h,
        outcome (api_health req (set_redisClient (Some c) w)) =
          Returned (res_json (BodyHealth h)) /\
        hc_checks h !! "redis" = Some (check_status "Not Available"))).
Proof.
  split.
  - intros w. split; [apply api_users_open|].
    destruct (ready_response req w) as (w1 & ev1 & -> & Ho1).
    destruct (api_health_response req w) as (w2 & ev2 & -> & Ho2).
    split; [exact Ho1|]. split; [exact Ho2|]. apply on_SIGTERM_open.
  - intros w c Hc.
    split; [apply blind_same_as_absent; [apply api_users_blind|exact Hc]|].
    split; [apply blind_same_as_absent; [apply ready_blind|exact Hc]|].
    split; [apply blind_same_as_absent; [apply api_health_blind|exact Hc]|].
    split; [apply blind_same_as_absent; [apply on_SIGTERM_blind|exact Hc]|].
    destruct (ready_response req (set_redisClient (Some c) w))
      as (w1 & ev1 & -> & _).
    destruct (api_health_response req (set_redisClient (Some c) w))
      as (w2 & ev2 & -> & _).
    split.
    + do 2 eexists. split; [reflexivity|].
      apply closed_client_not_available. exact Hc.
    + eexists. split; [reflexivity|].
      apply closed_client_not_available. exact Hc.
Qed.

End Consumers.

(** ** Accounting of the acquisition loops *)

Lemma new_pools_app (t1 t2 : list Event) :
  new_pools (t1 ++ t2) = new_pools t1 ++ new_pools t2.
Proof. apply omap_app. Qed.

Lemma store_rejections_app (t1 t2 : list Event) :
  store_rejections (t1 ++ t2) = store_rejections t1 ++ store_rejections t2.
Proof. apply omap_app. Qed.

Lemma retry_incs_app (t1 t2 : list Event) :
  retry_incs (t1 ++ t2) = retry_incs t1 ++ retry_incs t2.
Proof. apply omap_app. Qed.

Lemma pool_ends_app (t1 t2 : list Event) :
  pool_ends (t1 ++ t2) = pool_ends t1 ++ pool_ends t2.
Proof. apply omap_app. Qed.

Lemma created_clients_app (t1 t2 : list Event) :
  created_clients (t1 ++ t2) = created_clients t1 ++ created_clients t2.
Proof. apply omap_app. Qed.

Lemma timer_codes_app (t1 t2 : list Event) :
  timer_codes (t1 ++ t2) = timer_codes t1 ++ timer_codes t2.
Proof. apply omap_app. Qed.

Lemma observations_app (t1 t2 : list Event) :
  observations (t1 ++ t2) = observations t1 ++ observations t2.
Proof. apply omap_app. Qed.

Lemma no_redis_warnings_app (t1 t2 : list Event) :
  no_redis_warnings (t1 ++ t2) = no_redis_warnings t1 ++ no_redis_warnings t2.
Proof. apply omap_app. Qed.

Create Rewrite HintDb readers.
#[export] Hint Rewrite store_calls_app waits_app cache_connects_app listens_app
  exits_app cache_commands_app releases_app new_pools_app store_rejections_app
  retry_incs_app pool_ends_app created_clients_app timer_codes_app
  observations_app no_redis_warnings_app : readers.

Section Accounting.
Context `{JsRuntime}.

(** What a run of the store loop keeps count of, whatever the store
    answers. *)
Lemma db_loop_accounting maxRetries retryDelay (fuel : nat) :
  forall attempt lastError w,
  (Z.to_nat (maxRetries + 1 - attempt) <= fuel)%nat ->
  let tr := emitted (db_loop fuel maxRetries retryDelay attempt lastError w) in
  (length (store_calls tr) <= Z.to_nat (maxRetries + 1 - attempt))%nat /\
  (attempt <= maxRetries -> (1 <= length (store_calls tr))%nat) /\
  length (waits tr) = (length (store_calls tr) - 1)%nat /\
  Forall (eq retryDelay) (waits tr) /\
  new_pools tr =
    replicate (length (store_calls tr)) (db_pool_config (env w)) /\
  length (retry_incs tr) = length (store_rejections tr) /\
  pool_ends tr = [] /\ created_clients tr = [] /\
  cache_connects tr = [] /\ cache_commands tr = [].
Proof.
  induction fuel as [|fuel IH]; intros attempt lastError w Hfuel;
    cbn [db_loop].
  - cbn. repeat split; auto; lia.
  - destruct (attempt <=? maxRetries) eqn:Hle;
      [|cbn; repeat split; auto; lia].
    destruct (store_reply_at w 0) as [e|v] eqn:Hr.
    + rewrite (bind_returned _ _ _ _ _ _ (db_attempt_fails _ _ _ _ _ Hr)).
      cbn [outcome after emitted].
      destruct (IH (attempt + 1) (Some e)
                  (after_failed_attempt maxRetries retryDelay attempt w))
        as (Hn & H1 & Hw & Hd & Hp & Hi & He & Hc & Hcc & Hcm); [lia|].
      cbn zeta in *. autorewrite with readers.
      rewrite Hp, He, Hc, Hcc, Hcm, after_failed_attempt_env, !length_app,
        Hw, Hi.
      destruct (attempt <? maxRetries) eqn:Hlt; cbn.
      * assert (1 <= length (store_calls (emitted
                  (db_loop fuel maxRetries retryDelay (attempt + 1) (Some e)
                     (after_failed_attempt maxRetries retryDelay attempt
                        w)))))%nat
          by (apply H1; lia).
        repeat split; auto; try lia.
      * repeat split; auto; try lia.
    + rewrite (bind_returned _ _ _ _ _ _ (db_attempt_succeeds _ _ _ _ _ Hr)).
      cbn. repeat split; auto; lia.
Qed.

(** X13. Whatever the store answers, [connectToDatabaseWithRetry] makes at
    most [maxRetries] attempts, at least one when [maxRetries >= 1], and
    waits exactly once between two consecutive attempts, each time for
    [retryDelay]: never before the first attempt nor after the last. *)
Theorem connectToDatabaseWithRetry_budget (w : World) :
  let tr := emitted (connectToDatabaseWithRetry w) in
  (length (store_calls tr) <= Z.to_nat (db_maxRetries (env w)))%nat /\
  (1 <= db_maxRetries (env w) -> (1 <= length (store_calls tr))%nat) /\
  length (waits tr) = (length (store_calls tr) - 1)%nat /\
  Forall (eq (db_retryDelay (env w))) (waits tr).
Proof.
  unfold connectToDatabaseWithRetry.
  erewrite bind_returned by reflexivity. cbn [outcome after emitted app].
  destruct (db_loop_accounting (db_maxRetries (env w)) (db_retryDelay (env w))
              (Z.to_nat (db_maxRetries (env w))) 1 None w)
    as (Hn & H1 & Hw & Hd & _); [lia|].
  cbn zeta in *. repeat split; auto.
  replace (db_maxRetries (env w) + 1 - 1) with (db_maxRetries (env w)) in Hn
    by lia.
  exact Hn.
Qed.

(** X2. Every attempt of [connectToDatabaseWithRetry] creates a new pool
    from the same configuration of the environment; the retry counter is
    incremented once for each rejected probe; and no pool is ever ended, so
    the pools of the failed attempts are left as they are. *)
Theorem connectToDatabaseWithRetry_resources (w : World) :
  let tr := emitted (connectToDatabaseWithRetry w) in
  new_pools tr =
    replicate (length (store_calls tr)) (db_pool_config (env w)) /\
  length (retry_incs tr) = length (store_rejections tr) /\
  pool_ends tr = [].
Proof.
  unfold connectToDatabaseWithRetry.
  erewrite bind_returned by reflexivity. cbn [outcome after emitted app].
  destruct (db_loop_accounting (db_maxRetries (env w)) (db_retryDelay (env w))
              (Z.to_nat (db_maxRetries (env w))) 1 None w)
    as (_ & _ & _ & _ & Hp & Hi & He & _); [lia|].
  auto.
Qed.

Lemma after_failed_connect_env maxRetries retryDelay attempt w :
  env (after_failed_connect maxRetries retryDelay attempt w) = env w.
Proof.
  unfold after_failed_connect. destruct (attempt <? maxRetries); reflexivity.
Qed.

(** What a run of the cache loop keeps count of, whatever the cache
    answers. *)
Lemma redis_loop_accounting maxRetries retryDelay (fuel : nat) :
  forall attempt w,
  (Z.to_nat (maxRetries + 1 - attempt) <= fuel)%nat ->
  let r := redis_loop fuel maxRetries retryDelay attempt w in
  let tr := emitted r in
  (length (cache_connects tr) <= Z.to_nat (maxRetries + 1 - attempt))%nat /\
  (attempt <= maxRetries -> (1 <= length (cache_connects tr))%nat) /\
  length (waits tr) = (length (cache_connects tr) - 1)%nat /\
  Forall (eq retryDelay) (waits tr) /\
  created_clients tr =
    replicate (length (cache_connects tr)) (redis_socket_config (env w)) /\
  store_calls tr = [] /\ new_pools tr = [] /\ cache_commands tr = [] /\
  ((outcome r = Returned None /\ no_redis_warnings tr = [tt]) \/
   (outcome r =
      Returned (Some {| client_socket := redis_socket_config (env w) |}) /\
    no_redis_warnings tr = [])).
Proof.
  induction fuel as [|fuel IH]; intros attempt w Hfuel; cbn [redis_loop].
  - cbn. repeat split; auto; lia.
  - destruct (attempt <=? maxRetries) eqn:Hle;
      [|cbn; repeat split; auto; lia].
    pose proof (redis_attempt_run maxRetries retryDelay attempt w) as Hrun.
    destruct (cache_error_at w 0) as [e|].
    + rewrite (bind_returned _ _ _ _ _ _ Hrun). cbn [outcome after emitted].
      destruct (IH (attempt + 1)
                  (after_failed_connect maxRetries retryDelay attempt w))
        as (Hn & H1 & Hw & Hd & Hc & Hs & Hp & Hcm & Ho); [lia|].
      cbn zeta in *. autorewrite with readers.
      rewrite Hc, Hs, Hp, Hcm, after_failed_connect_env, !length_app, Hw.
      rewrite after_failed_connect_env in Ho.
      destruct (attempt <? maxRetries) eqn:Hlt; cbn.
      * assert (1 <= length (cache_connects (emitted
                  (redis_loop fuel maxRetries retryDelay (attempt + 1)
                     (after_failed_connect maxRetries retryDelay attempt
                        w)))))%nat
          by (apply H1; lia).
        repeat split; auto; lia.
      * repeat split; auto; lia.
    + rewrite (bind_returned _ _ _ _ _ _ Hrun). cbn.
      repeat split; auto; lia.
Qed.

(** X1. [connectToRedisWithRetry] creates one client per connection
    attempt, all from the same socket configuration of the environment,
    waits once between two consecutive attempts, never queries the store and
    never issues a command on a client (a client whose connection failed is
    left as it is). When the connection succeeds on attempt j+1 <= 3 after j
    failures, it returns that client after exactly j+1 attempts and j waits
    of 3000 ms, without the warning; when all three fail it has waited twice
    and logs the warning once. *)
Theorem connectToRedisWithRetry_attempts (w : World) :
  let r := connectToRedisWithRetry w in
  let tr := emitted r in
  (created_clients tr =
     replicate (length (cache_connects tr)) (redis_socket_config (env w)) /\
   length (waits tr) = (length (cache_connects tr) - 1)%nat /\
   store_calls tr = [] /\ cache_commands tr = []) /\
  (forall j,
     (j < 3)%nat ->
     (forall i, (i < j)%nat -> is_Some (cache_error_at w i)) ->
     cache_error_at w j = None ->
     outcome r =
       Returned (Some {| client_socket := redis_socket_config (env w) |}) /\
     cache_connects tr = replicate j false ++ [true] /\
     waits tr = replicate j 3000 /\
     no_redis_warnings tr = []) /\
  ((forall i, (i < 3)%nat -> is_Some (cache_error_at w i)) ->
   waits tr = [3000; 3000] /\ no_redis_warnings tr = [tt]).
Proof.
  cbn zeta.
  destruct (redis_loop_accounting 3 3000 3 1 w)
    as (_ & _ & Hw & _ & Hc & Hs & _ & Hcm & Ho); [lia|].
  change (redis_loop 3 3 3000 1 w) with (connectToRedisWithRetry w) in *.
  cbn zeta in *. split; [auto|]. split.
  - intros j Hj Hfail Hok.
    destruct (redis_loop_connected 3 3000 j 3 1 w) as (Hr & Hcc & Hww);
      [lia|lia|exact Hfail|exact Hok|].
    change (redis_loop 3 3 3000 1 w) with (connectToRedisWithRetry w) in *.
    cbn zeta in *. repeat split; auto.
    destruct Ho as [[Hnone _]|[_ Hwarn]]; [|exact Hwarn].
    rewrite Hr in Hnone. discriminate.
  - intros Hfail.
    destruct (redis_loop_absent 3 3000 3 3 1 w) as (Hr & _ & Hww);
      [lia|lia|exact Hfail|].
    change (redis_loop 3 3 3000 1 w) with (connectToRedisWithRetry w) in *.
    cbn zeta in *. split; [exact Hww|].
    destruct Ho as [[_ Hwarn]|[Hsome _]]; [exact Hwarn|].
    rewrite Hr in Hsome. discriminate.
Qed.

(** X3. Startup attempts the cache only after the store was acquired. The
    acquisition of the store creates no cache client and attempts no cache
    connection; when it throws, [main] adds only the error log and the exit,
    so the cache is never attempted; when it returns, the trace of [main] is
    the store's events, then the cache's (which hold no store query), then
    the log that all connections are established - also when the cache is
    absent - and the listener. *)
Theorem cache_attempted_after_store (w : World) :
  let db := connectToDatabaseWithRetry w in
  let r := main w in
  (created_clients (emitted db) = [] /\ cache_connects (emitted db) = []) /\
  (forall e,
     outcome db = Thrown e ->
     emitted r = emitted db ++ [EvLog (ErrInitFailed e); EvExit 1] /\
     created_clients (emitted r) = [] /\ cache_connects (emitted r) = []) /\
  (forall p,
     outcome db = Returned p ->
     let rd := connectToRedisWithRetry (set_pool (Some p) (after db)) in
     emitted r =
       emitted db ++ emitted rd ++
       [EvLog LogAllConnections; EvListen (PORT (env w));
        EvLog (LogServerRunning (PORT (env w)));
        EvLog (LogMetricsAt (PORT (env w)));
        EvLog (LogHealthAt (PORT (env w)));
        EvLog (LogReadyAt (PORT (env w)));
        EvLog (LogDetailedAt (PORT (env w)))] /\
     store_calls (emitted rd) = []).
Proof.
  intros db r.
  assert (Hdb : created_clients (emitted db) = [] /\
                cache_connects (emitted db) = []).
  { unfold db, connectToDatabaseWithRetry.
    erewrite bind_returned by reflexivity. cbn [outcome after emitted app].
    destruct (db_loop_accounting (db_maxRetries (env w))
                (db_retryDelay (env w)) (Z.to_nat (db_maxRetries (env w)))
                1 None w)
      as (_ & _ & _ & _ & _ & _ & _ & Hc & Hcc & _); [lia|]. auto. }
  destruct Hdb as [Hc Hcc]. split; [auto|]. split.
  - intros e Ho.
    assert (Hrun : connectToDatabaseWithRetry w =
                   mkRun (Thrown e) (after db) (emitted db)).
    { rewrite <- Ho. apply run_eta. }
    unfold r. rewrite (main_failed _ _ _ _ Hrun). cbn [emitted].
    autorewrite with readers. rewrite Hc, Hcc. auto.
  - intros p Ho rd.
    assert (Hrun : connectToDatabaseWithRetry w =
                   mkRun (Returned p) (after db) (emitted db)).
    { rewrite <- Ho. apply run_eta. }
    destruct (connectToRedisWithRetry_returns (set_pool (Some p) (after db)))
      as ((c & Hrc) & _ & _ & _ & _ & He2).
    destruct (connectToDatabaseWithRetry_cases w) as (_ & _ & He & _).
    destruct (redis_loop_accounting 3 3000 3 1 (set_pool (Some p) (after db)))
      as (_ & _ & _ & _ & _ & Hs & _); [lia|].
    change (redis_loop 3 3 3000 1 (set_pool (Some p) (after db)))
      with rd in Hs.
    split; [|exact Hs].
    unfold r. rewrite (main_serving _ _ _ _ _ Hrun Hrc).
    cbn [emitted]. rewrite app_listen_run. cbn [emitted].
    fold rd. fold rd in He2.
    cbn zeta in He. fold db in He.
    rewrite He2. cbn [set_pool env]. rewrite He. reflexivity.
Qed.

(** X4. With a negative [DATABASE_RETRY_ATTEMPTS] the loop body never runs:
    no pool is created and the store is never probed; the [throw] after the
    loop reads [message] of an undefined [lastError], so what is thrown is a
    [TypeError], and startup logs it and exits with code 1 at once. *)
Theorem negative_budget_exits (w : World) :
  db_maxRetries (env w) < 0 ->
  main w =
    mkRun (Exited 1) w
      [EvLog (ErrInitFailed
                (mkError "TypeError"
                   "Cannot read properties of undefined (reading 'message')"));
       EvExit 1].
Proof.
  intros Hneg.
  rewrite (main_failed _ _ _ _ (connectToDatabaseWithRetry_negative w Hneg)).
  reflexivity.
Qed.

End Accounting.

(** ** What serving a request leaves alone *)

Section Frame.
Context `{JsRuntime}.
Variable R : World -> World -> Prop.
Hypothesis R_refl : forall w, R w w.
Hypothesis R_trans : forall w1 w2 w3, R w1 w2 -> R w2 w3 -> R w1 w3.
Hypothesis R_store : forall w, R w (after_store_call w).
Hypothesis R_cache : forall w, R w (after_cache_call w).
Hypothesis R_populate :
  forall w entry,
    R w (set_redis_data (<[cacheKey := entry]> (redis_data w)) w).

Lemma within_ret {A} (a : A) : serves_within R (ret a).
Proof. intros w. split; [apply R_refl|constructor]. Qed.

Lemma within_throw {A} (e : JsError) : serves_within R (throw (A:=A) e).
Proof. intros w. split; [apply R_refl|constructor]. Qed.

Lemma within_emit (e : Event) :
  is_request_event e = true -> serves_within R (emit e).
Proof.
  intros He w. split; [apply R_refl|]. repeat constructor. exact He.
Qed.

Lemma within_read {A} (f : World -> A) : serves_within R (read f).
Proof. intros w. split; [apply R_refl|constructor]. Qed.

Lemma within_pg_call (ev : bool -> Event) :
  (forall b, is_request_event (ev b) = true) -> serves_within R (pg_call ev).
Proof.
  intros Hev w. unfold pg_call.
  destruct (pg_result (pg_reply w (pg_calls w))); cbn [after emitted];
    (split; [apply R_store|repeat constructor; apply Hev]).
Qed.

Lemma within_redis_call (ev : bool -> Event) :
  (forall b, is_request_event (ev b) = true) ->
  serves_within R (redis_call ev).
Proof.
  intros Hev w. unfold redis_call.
  destruct (rd_error (redis_reply w (redis_calls w))); cbn [after emitted];
    (split; [apply R_cache|repeat constructor; apply Hev]).
Qed.

Lemma within_bind {A B} (m : M A) (k : A -> M B) :
  serves_within R m -> (forall a, serves_within R (k a)) ->
  serves_within R (bind m k).
Proof.
  intros Hm Hk w. destruct (Hm w) as [Hr1 Ht1]. unfold bind.
  destruct (m w) as [[a|e|code] w1 ev1]; cbn [after emitted] in *; auto.
  destruct (Hk a w1) as [Hr2 Ht2].
  destruct (k a w1) as [o w2 ev2]; cbn [after emitted] in *.
  split; [eapply R_trans; eauto|]. apply Forall_app_2; assumption.
Qed.

Lemma within_try_catch {A} (m : M A) (h : JsError -> M A) :
  serves_within R m -> (forall e, serves_within R (h e)) ->
  serves_within R (try_catch m h).
Proof.
  intros Hm Hh w. destruct (Hm w) as [Hr1 Ht1]. unfold try_catch.
  destruct (m w) as [[a|e|code] w1 ev1]; cbn [after emitted] in *; auto.
  destruct (Hh e w1) as [Hr2 Ht2].
  destruct (h e w1) as [o w2 ev2]; cbn [after emitted] in *.
  split; [eapply R_trans; eauto|]. apply Forall_app_2; assumption.
Qed.

(** The write of [setEx], on the key of the users. *)
Lemma within_populate (value : string) (seconds : Z) :
  serves_within R
    (write (fun w =>
       set_redis_data
         (<[cacheKey := (value, now w + seconds * 1000)]> (redis_data w)) w)).
Proof. intros w. split; [apply R_populate|constructor]. Qed.

(** Walk a handler step by step. *)
Local Ltac within_walk :=
  repeat first
    [ apply within_ret
    | apply within_throw
    | apply within_emit; reflexivity
    | apply within_populate
    | apply within_read
    | apply within_pg_call; intros []; reflexivity
    | apply within_redis_call; intros []; reflexivity
    | apply within_bind
    | apply within_try_catch
    | match goal with
      | |- serves_within _ (match ?x with _ => _ end) => destruct x
      | |- serves_within _ (if ?x then _ else _) => destruct x
      | |- forall _, _ => intro
      end ].

Lemma health_within (req : Request) : serves_within R (health req).
Proof. unfold health, Date_now. within_walk. Qed.

Lemma ready_within (req : Request) : serves_within R (ready req).
Proof.
  unfold ready, check_database, check_redis, redis_guard, isOpen, redis_ping,
    redis_command, pool_query, Date_now.
  within_walk.
Qed.

Lemma api_health_within (req : Request) : serves_within R (api_health req).
Proof.
  unfold api_health, check_database, check_redis, redis_guard, isOpen,
    redis_ping, redis_command, pool_query, Date_now.
  within_walk.
Qed.

Lemma api_users_within (req : Request) : serves_within R (api_users req).
Proof.
  unfold api_users, users_cache_read, users_cache_write, redis_guard, isOpen,
    redis_get, redis_setEx, redis_command, json_parse, pool_query, console,
    Date_now, cacheKey.
  within_walk.
Qed.

End Frame.

Section LeftAlone.
Context `{JsRuntime}.

Lemma same_handles_refl (w : World) : same_handles w w.
Proof. repeat split. Qed.

Lemma same_handles_trans (w1 w2 w3 : World) :
  same_handles w1 w2 -> same_handles w2 w3 -> same_handles w1 w3.
Proof.
  intros (A1 & A2 & A3 & A4 & A5 & A6) (B1 & B2 & B3 & B4 & B5 & B6).
  repeat split; congruence.
Qed.

Lemma same_keyspace_trans (w1 w2 w3 : World) :
  same_keyspace w1 w2 -> same_keyspace w2 w3 -> same_keyspace w1 w3.
Proof.
  intros [A1 A2] [B1 B2]. split; [eapply same_handles_trans; eauto|congruence].
Qed.

Lemma same_other_keys_trans (w1 w2 w3 : World) :
  same_other_keys w1 w2 -> same_other_keys w2 w3 -> same_other_keys w1 w3.
Proof.
  intros [A1 A2] [B1 B2]. split; [eapply same_handles_trans; eauto|].
  intros k Hk. rewrite B2, A2 by exact Hk. reflexivity.
Qed.

Lemma api_users_returns (req : Request) (w : World) :
  exists resp, outcome (api_users req w) = Returned resp.
Proof.
  pose proof (api_users_run req w) as Hrun.
  destruct (pool w) as [p|];
    [destruct (cached_users w) as [v|];
     [|destruct (store_reply_at w 0) as [e|rows]]|].
  - destruct Hrun as (ev & -> & _). eauto.
  - destruct Hrun as (ev & -> & _). eauto.
  - destruct Hrun as (ev & -> & _). eauto.
  - rewrite Hrun. eauto.
Qed.

(** X6. Serving a request leaves the connections alone. The four request
    handlers always answer (they never throw), never assign [pool] or
    [redisClient], and emit only events of serving: none creates or releases
    a connection, waits on a timer, opens the listener or exits. The
    liveness, readiness and detailed-health handlers leave the cache's
    keyspace as it is; [/api/users] changes it at most at the key
    ['users:all']. *)
Theorem request_handlers_leave_alone (req : Request) :
  (serves_within same_keyspace (health req) /\
   serves_within same_keyspace (ready req) /\
   serves_within same_keyspace (api_health req) /\
   serves_within same_other_keys (api_users req)) /\
  (forall w : World,
     (exists resp, outcome (health req w) = Returned resp) /\
     (exists resp, outcome (ready req w) = Returned resp) /\
     (exists resp, outcome (api_health req w) = Returned resp) /\
     (exists resp, outcome (api_users req w) = Returned resp)).
Proof.
  split.
  - split; [|split; [|split]].
    + apply health_within; intros;
        first [solve [repeat split]
              | solve [eapply same_keyspace_trans; eauto]].
    + apply ready_within; intros;
        first [solve [repeat split]
              | solve [eapply same_keyspace_trans; eauto]].
    + apply api_health_within; intros;
        first [solve [repeat split]
              | solve [eapply same_keyspace_trans; eauto]].
    + apply api_users_within; intros;
        first [solve [repeat split]
              | solve [eapply same_other_keys_trans; eauto]
              | idtac].
      split; [repeat split|]. intros k Hk. cbn.
      apply lookup_insert_ne. congruence.
  - intros w. split; [eexists; reflexivity|].
    destruct (ready_response req w) as (w1 & ev1 & -> & _).
    destruct (api_health_response req w) as (w2 & ev2 & -> & _).
    split; [eauto|]. split; [eauto|]. apply api_users_returns.
Qed.

End LeftAlone.

Section HealthAgree.
Context `{JsRuntime}.

(** The two checks end in the same world and make the same calls whatever
    the report they fill and the word they write on failure. *)
Lemma checks_effects {A} (failed : string) (h0 : HealthCheck)
    (g : HealthCheck -> A) (w : World) :
  let r := bind (check_database failed h0)
             (fun h => bind (check_redis h) (fun h' => ret (g h'))) w in
  after r = after_health w /\ emitted r = health_events w.
Proof.
  pose proof (check_database_run failed h0 w) as Hdb.
  pose proof (fun h => check_redis_run h (after_database_check w)) as Hrd.
  unfold after_health, health_events, store_probe_ok.
  unfold after_database_check in *.
  destruct (pool w) as [p|];
    [destruct (store_reply_at w 0) as [e|v]|];
    cbn zeta; rewrite (bind_returned _ _ _ _ _ _ Hdb);
    cbn [outcome after emitted];
    (destruct (guarded_client _) as [c|];
     [destruct (cache_error_at _ 0) as [e'|]|]);
    rewrite (bind_returned _ _ _ _ _ _ (Hrd _));
    split; reflexivity.
Qed.

Lemma ready_effects (req : Request) (w : World) :
  after (ready req w) = after_health w /\
  emitted (ready req w) = health_events w.
Proof.
  unfold ready. erewrite bind_returned by reflexivity.
  cbn [outcome after emitted app]. apply checks_effects.
Qed.

Lemma api_health_effects (req : Request) (w : World) :
  after (api_health req w) = after_health w /\
  emitted (api_health req w) = health_events w.
Proof.
  unfold api_health. erewrite bind_returned by reflexivity.
  cbn [outcome after emitted app].
  apply (checks_effects "Error" _ (fun h => res_json (BodyHealth h))).
Qed.

(** X5. In the same world the readiness and the detailed-health endpoints
    make the same calls and end in the same world, and their reports carry
    the same timestamp and the same checks; [/ready] answers 200 exactly
    when the report of [/api/health] says [OK], and 503 exactly when it says
    [Error]. Each issues one [SELECT 1] when the pool is there, and one
    [ping] when the guard on the client holds - also when the store probe
    has just failed. *)
Theorem health_endpoints_agree (req : Request) (w : World) :
  exists code h1 h2,
    outcome (ready req w) = Returned (res_status_json code (BodyHealth h1)) /\
    outcome (api_health req w) = Returned (res_json (BodyHealth h2)) /\
    after (ready req w) = after (api_health req w) /\
    emitted (ready req w) = emitted (api_health req w) /\
    hc_checks h1 = hc_checks h2 /\
    hc_timestamp h1 = hc_timestamp h2 /\
    ((code = 200 /\ hc_status h1 = "READY" /\ hc_status h2 = "OK") \/
     (code = 503 /\ hc_status h1 = "NOT_READY" /\ hc_status h2 = "Error")) /\
    store_calls (emitted (ready req w)) =
      match pool w with Some _ => [store_probe_ok w] | None => [] end /\
    cache_commands (emitted (ready req w)) =
      match guarded_client (after_database_check w) with
      | Some _ => [(CmdPing, true)]
      | None => []
      end.
Proof.
  destruct (ready_effects req w) as [Ha1 He1].
  destruct (api_health_effects req w) as [Ha2 He2].
  rewrite Ha1, Ha2, He1, He2.
  destruct (ready_response req w) as (w1 & ev1 & -> & _).
  destruct (api_health_response req w) as (w2 & ev2 & -> & _).
  do 3 eexists. cbn [outcome].
  split; [reflexivity|]. split; [reflexivity|].
  split; [reflexivity|]. split; [reflexivity|].
  split; [reflexivity|]. split; [reflexivity|].
  unfold health_report, health_events. cbn [hc_status].
  split; [destruct (store_probe_ok w); auto|].
  autorewrite with readers.
  destruct (pool w); destruct (guarded_client _); split; reflexivity.
Qed.

End HealthAgree.

(** ** The cache-aside read: metrics, population and expiry *)

Section UsersMore.
Context `{JsRuntime}.

Lemma guarded_client_flag (w : World) (c : RedisClient) :
  guarded_client w = Some c -> redis_open_at w (ticks w) = true.
Proof.
  unfold guarded_client. destruct (redisClient w); [|discriminate].
  destruct (redis_open_at w (ticks w)); [reflexivity|discriminate].
Qed.

Lemma cached_users_entry (w : World) :
  cached_users w =
  match truthy_entry w with
  | Some cached =>
      match JSON_parse cached with
      | inr v => Some v
      | inl _ => None
      end
  | None => None
  end.
Proof.
  unfold cached_users, truthy_entry.
  destruct (guarded_client w); [|reflexivity].
  destruct (cache_error_at w 0); [reflexivity|].
  destruct (live_entry cacheKey (after_cache_call w)) as [[|ch rest]|];
    reflexivity.
Qed.

(** What the cache read records: nothing unless it takes a string for the
    users, and then the timer is ended with code 200 and a [cache_hit] is
    observed before the string is parsed. *)
Lemma users_cache_read_labels (req : Request) (dbStart : Z) (w : World) :
  let ev := emitted (users_cache_read req dbStart w) in
  timer_codes ev = match truthy_entry w with Some _ => [200] | None => [] end /\
  observations ev =
    match truthy_entry w with Some _ => ["cache_hit"] | None => [] end.
Proof.
  unfold users_cache_read, truthy_entry.
  erewrite bind_returned by apply redis_guard_run.
  cbn [outcome after emitted app].
  destruct (guarded_client w) as [c|] eqn:Hg; [|split; reflexivity].
  pose proof (guarded_client_flag w c Hg) as Ho.
  unfold cache_error_at, after_cache_call. rewrite Nat.add_0_r.
  unfold redis_get, redis_command, redis_call, isOpen, json_parse, read,
    try_catch, bind.
  cbn. rewrite Ho.
  destruct (rd_error (redis_reply w (redis_calls w))) as [e|]; cbn;
    [split; reflexivity|].
  destruct (live_entry cacheKey _) as [[|ch rest]|]; cbn;
    [split; reflexivity| |split; reflexivity].
  destruct (JSON_parse (String ch rest)) as [e|v]; cbn; split; reflexivity.
Qed.

Lemma users_cache_write_labels (rows : JsValue) (w : World) :
  let ev := emitted (users_cache_write rows w) in
  timer_codes ev = [] /\ observations ev = [].
Proof.
  unfold users_cache_write.
  erewrite bind_returned by apply redis_guard_run.
  cbn [outcome after emitted app].
  destruct (guarded_client w) as [c|] eqn:Hg; [|split; reflexivity].
  pose proof (guarded_client_flag w c Hg) as Ho.
  unfold redis_setEx, redis_command, redis_call, isOpen, read, write,
    try_catch, bind.
  cbn. rewrite Ho.
  destruct (rd_error (redis_reply w (redis_calls w))) as [e|]; cbn;
    split; reflexivity.
Qed.

(** The trace of a read of [/api/users], with the traces of the cache read
    and of the cache write as they come. *)
Lemma api_users_trace (req : Request) (w : World) :
  emitted (api_users req w) =
  EvTimerStart ::
  match pool w with
  | None => [EvTimerEnd (method req) "/api/users" 503]
  | Some _ =>
      emitted (users_cache_read req (now w) w) ++
      match cached_users w with
      | Some _ => []
      | None =>
          match store_reply_at w 0 with
          | inl e =>
              [EvQuery "SELECT * FROM users ORDER BY id" false;
               EvLog (ErrFetchingUsers e);
               EvTimerEnd (method req) "/api/users" 500]
          | inr rows =>
              EvQuery "SELECT * FROM users ORDER BY id" true ::
              emitted (users_cache_write rows (before_cache_write w)) ++
              [EvLog LogServingFromDb;
               EvObserve "select" "users"
                 (now (after_cache_write rows (before_cache_write w)) - now w);
               EvTimerEnd (method req) "/api/users" 200]
          end
      end
  end.
Proof.
  unfold api_users, before_cache_write.
  erewrite bind_returned by reflexivity. cbn [outcome after emitted].
  erewrite bind_returned by reflexivity. cbn [outcome after emitted].
  destruct (pool w) as [p|] eqn:Hp.
  2: { erewrite try_catch_returned.
       2: { erewrite bind_returned by reflexivity. rewrite Hp. reflexivity. }
       reflexivity. }
  destruct (users_cache_read_run req (now w) w) as (ev1 & Hrun1 & _).
  pose proof (pool_query_run p "SELECT * FROM users ORDER BY id"
                (after_cache_read w)) as Hq.
  rewrite after_cache_read_store in Hq.
  assert (He1 : emitted (users_cache_read req (now w) w) = ev1)
    by (rewrite Hrun1; reflexivity).
  rewrite He1.
  destruct (cached_users w) as [v|].
  - erewrite try_catch_returned.
    2: { erewrite bind_returned by reflexivity. rewrite Hp.
         cbn [outcome after emitted app].
         rewrite (bind_returned _ _ _ _ _ _ Hrun1). reflexivity. }
    cbn [emitted app]. rewrite ?app_nil_r. reflexivity.
  - destruct (store_reply_at w 0) as [e|rows].
    + erewrite try_catch_thrown.
      2: { erewrite bind_returned by reflexivity. rewrite Hp.
           cbn [outcome after emitted app].
           rewrite (bind_returned _ _ _ _ _ _ Hrun1).
           cbn [outcome after emitted].
           rewrite (bind_thrown _ _ _ _ _ _ Hq). reflexivity. }
      cbn [emitted app]. rewrite <- ?app_assoc. reflexivity.
    + destruct (users_cache_write_run rows
                  (after_store_call (after_cache_read w)))
        as (ev2 & Hrun2 & _).
      assert (He2 : emitted (users_cache_write rows
                               (after_store_call (after_cache_read w))) = ev2)
        by (rewrite Hrun2; reflexivity).
      rewrite He2.
      erewrite try_catch_returned.
      2: { erewrite bind_returned by reflexivity. rewrite Hp.
           cbn [outcome after emitted app].
           rewrite (bind_returned _ _ _ _ _ _ Hrun1).
           cbn [outcome after emitted].
           rewrite (bind_returned _ _ _ _ _ _ Hq).
           cbn [outcome after emitted].
           rewrite (bind_returned _ _ _ _ _ _ Hrun2). reflexivity. }
      cbn [emitted app]. rewrite <- ?app_assoc. reflexivity.
Qed.

Local Ltac split_readers :=
  repeat match goal with
         | |- context [?x :: ?l] =>
             lazymatch l with
             | [] => fail
             | _ => change (x :: l) with ([x] ++ l)
             end
         end;
  autorewrite with readers.

(** X9. What a read of [/api/users] records. The request timer is ended
    with the status code of the answer; when the string taken from the cache
    does not parse it has been ended once before, with code 200, so that the
    timer of the one request is ended twice. A [cache_hit] is observed
    whenever a string is taken from the cache, also when it then fails to
    parse, and a [select] exactly when the store query resolved. *)
Theorem api_users_metrics (req : Request) (w : World) :
  let r := api_users req w in
  exists resp,
    outcome r = Returned resp /\
    timer_codes (emitted r) =
      (if unparsable_hit w then [200] else []) ++ [res_status resp] /\
    observations (emitted r) =
      match pool w, truthy_entry w with
      | Some _, Some _ => ["cache_hit"]
      | _, _ => []
      end ++
      match store_calls (emitted r) with
      | [true] => ["select"]
      | _ => []
      end.
Proof.
  cbn zeta. pose proof (api_users_run req w) as Hrun.
  rewrite api_users_trace.
  destruct (users_cache_read_labels req (now w) w) as [Ht1 Ho1].
  destruct (users_cache_read_run req (now w) w) as (ev1 & Hr1 & Hs1 & _).
  assert (He1 : emitted (users_cache_read req (now w) w) = ev1)
    by (rewrite Hr1; reflexivity).
  rewrite He1 in *. clear Hr1 He1.
  unfold unparsable_hit. rewrite cached_users_entry in *.
  destruct (pool w) as [p|].
  2: { rewrite Hrun. eexists. split; [reflexivity|]. split; reflexivity. }
  assert (Hwrite : forall rows,
    let ev := emitted (users_cache_write rows (before_cache_write w)) in
    timer_codes ev = [] /\ observations ev = [] /\ store_calls ev = []).
  { intros rows. cbn zeta.
    destruct (users_cache_write_labels rows (before_cache_write w))
      as [Ht2 Ho2].
    destruct (users_cache_write_run rows (before_cache_write w))
      as (ev2 & Hr2 & Hs2 & _).
    rewrite Hr2 in *. auto. }
  destruct (truthy_entry w) as [cached|];
    [destruct (JSON_parse cached) as [e|v]|].
  - destruct (store_reply_at w 0) as [e'|rows].
    + destruct Hrun as (ev & -> & _). eexists. split; [reflexivity|].
      split_readers. rewrite Ht1, Ho1, Hs1. split; reflexivity.
    + destruct Hrun as (ev & -> & _). eexists. split; [reflexivity|].
      destruct (Hwrite rows) as (Ht2 & Ho2 & Hs2).
      split_readers. rewrite Ht1, Ho1, Hs1, Ht2, Ho2, Hs2. split; reflexivity.
  - destruct Hrun as (ev & -> & _). eexists. split; [reflexivity|].
    split_readers. rewrite Ht1, Ho1, Hs1. split; reflexivity.
  - destruct (store_reply_at w 0) as [e'|rows].
    + destruct Hrun as (ev & -> & _). eexists. split; [reflexivity|].
      split_readers. rewrite Ht1, Ho1, Hs1. split; reflexivity.
    + destruct Hrun as (ev & -> & _). eexists. split; [reflexivity|].
      destruct (Hwrite rows) as (Ht2 & Ho2 & Hs2).
      split_readers. rewrite Ht1, Ho1, Hs1, Ht2, Ho2, Hs2. split; reflexivity.
Qed.

(** A read answered by the store whose [setEx] is issued and resolves: the
    world it ends in. *)
Lemma api_users_populated (req : Request) (w : World) (p : Pool)
    (c : RedisClient) (rows : JsValue) :
  pool w = Some p ->
  cached_users w = None ->
  store_reply_at w 0 = inr rows ->
  guarded_client (before_cache_write w) = Some c ->
  cache_error_at (before_cache_write w) 0 = None ->
  exists ev,
    api_users req w =
      mkRun (Returned (res_json (BodyJson rows)))
        (set_redis_data
           (<[cacheKey := (JSON_stringify rows,
                           now (after_cache_call (before_cache_write w))
                           + 300 * 1000)]> (redis_data w))
           (after_cache_call (before_cache_write w))) ev /\
    store_calls ev = [true].
Proof.
  intros Hp Hmiss Hrows Hg He.
  pose proof (api_users_run req w) as Hrun.
  rewrite Hp, Hmiss, Hrows in Hrun. destruct Hrun as (ev & Hr & Hs & _).
  exists ev. split; [|exact Hs]. rewrite Hr. f_equal.
  fold (before_cache_write w). unfold after_cache_write. rewrite Hg, He.
  f_equal. f_equal. unfold before_cache_write, after_cache_read.
  destruct (guarded_client w); reflexivity.
Qed.

(** X7. Populating the cache. When a read of [/api/users] is answered by the
    store and its [setEx] is issued and resolves, the keyspace it leaves is
    the one it found with ['users:all'] bound to the serialised rows, to
    expire 300 seconds after the end of the request: a [get] of the key sees
    the serialised rows for the next 300 seconds and nothing from then on. *)
Theorem api_users_populates (req : Request) (w : World) (p : Pool)
    (c : RedisClient) (rows : JsValue) :
  pool w = Some p ->
  cached_users w = None ->
  store_reply_at w 0 = inr rows ->
  guarded_client (before_cache_write w) = Some c ->
  cache_error_at (before_cache_write w) 0 = None ->
  let r := api_users req w in
  outcome r = Returned (res_json (BodyJson rows)) /\
  In (CmdSetEx "users:all" 300 (JSON_stringify rows), true)
    (cache_commands (emitted r)) /\
  redis_data (after r) =
    <["users:all" := (JSON_stringify rows, now (after r) + 300000)]>
      (redis_data w) /\
  forall gap,
    live_entry "users:all" (suspend gap (after r)) =
      if gap <? 300000 then Some (JSON_stringify rows) else None.
Proof.
  intros Hp Hmiss Hrows Hg He r.
  destruct (api_users_populated req w p c rows Hp Hmiss Hrows Hg He)
    as (ev & Hr & _).
  assert (Hcmd : In (CmdSetEx "users:all" 300 (JSON_stringify rows), true)
                   (cache_commands (emitted r))).
  { unfold r. rewrite api_users_trace, Hp, Hmiss, Hrows.
    destruct (users_cache_write_run rows (before_cache_write w))
      as (ev2 & Hr2 & _ & Hc2).
    rewrite Hg in Hc2. rewrite Hr2. cbn [emitted].
    split_readers. rewrite Hc2.
    apply in_or_app. right. apply in_or_app. right.
    apply in_or_app. right. apply in_or_app. left. left. reflexivity. }
  unfold r in *. clearbody r. rewrite Hr in *. cbn [outcome after] in *.
  split; [reflexivity|]. split; [exact Hcmd|]. split; [reflexivity|].
  intros gap. unfold live_entry.
  cbn [redis_data now suspend set_redis_data].
  change "users:all" with cacheKey. rewrite lookup_insert_eq.
  destruct (gap <? 300000) eqn:Hgap.
  - replace (_ <? _) with true by lia. reflexivity.
  - replace (_ <? _) with false by lia. reflexivity.
Qed.

(** X8. The entry expires. After a read that populated the cache, a read
    that starts 300 seconds or more after the end of the first is not
    answered from the cache, whatever the cache does: it queries the store
    again and answers with the rows the store gives then, or with 500 when
    the store rejects the query. *)
Theorem cache_entry_expires (req : Request) (w : World) (p : Pool)
    (c : RedisClient) (rows : JsValue) (gap : Z) :
  pool w = Some p ->
  cached_users w = None ->
  store_reply_at w 0 = inr rows ->
  guarded_client (before_cache_write w) = Some c ->
  cache_error_at (before_cache_write w) 0 = None ->
  (forall i, 0 <= rd_elapsed (redis_reply w i)) ->
  300000 <= gap ->
  let r1 := api_users req w in
  let r2 := api_users req (suspend gap (after r1)) in
  store_calls (emitted r1) = [true] /\
  match store_reply_at w 1 with
  | inr rows' =>
      outcome r2 = Returned (res_json (BodyJson rows')) /\
      store_calls (emitted r2) = [true]
  | inl _ =>
      outcome r2 =
        Returned (res_status_json 500 (BodyError "Internal server error")) /\
      store_calls (emitted r2) = [false]
  end.
Proof.
  intros Hp Hmiss Hrows Hg He Hpos Hgap r1 r2.
  destruct (api_users_populated req w p c rows Hp Hmiss Hrows Hg He)
    as (ev & Hr & Hs).
  unfold r2, r1. rewrite Hr. cbn [emitted after]. split; [exact Hs|].
  set (w1 := set_redis_data _ _).
  set (w2 := suspend gap w1).
  assert (Hmiss2 : cached_users w2 = None).
  { unfold cached_users.
    destruct (guarded_client w2); [|reflexivity].
    destruct (cache_error_at w2 0); [reflexivity|].
    unfold live_entry.
    replace (redis_data (after_cache_call w2) !! cacheKey)
      with (Some (JSON_stringify rows,
                  now (after_cache_call (before_cache_write w)) + 300 * 1000))
      by (symmetry; apply lookup_insert_eq).
    replace (_ <? _) with false; [reflexivity|].
    symmetry. apply Z.ltb_ge.
    pose proof (Hpos (redis_calls w2)) as Hpos2.
    unfold w2, w1 in *.
    cbn [now after_cache_call suspend count_redis_call set_redis_data
         redis_reply redis_calls] in *.
    replace (redis_reply (before_cache_write w)) with (redis_reply w)
      by (unfold before_cache_write, after_cache_read;
          destruct (guarded_client w); reflexivity).
    lia. }
  assert (Hstore : store_reply_at w2 0 = store_reply_at w 1).
  { unfold store_reply_at, w2, w1, before_cache_write, after_cache_read.
    destruct (guarded_client w); cbn; f_equal; f_equal; lia. }
  pose proof (api_users_run req w2) as Hrun2.
  replace (pool w2) with (Some p) in Hrun2.
  2: { symmetry. unfold w2, w1, before_cache_write, after_cache_read.
       destruct (guarded_client w); exact Hp. }
  rewrite Hmiss2, Hstore in Hrun2.
  destruct (store_reply_at w 1) as [e|rows'];
    destruct Hrun2 as (ev2 & -> & Hs2 & _);
    (split; [reflexivity|exact Hs2]).
Qed.

End UsersMore.

(** ** Shutdown when a release rejects *)

Section ShutdownMore.
Context `{JsRuntime}.

(** X10. A release that rejects ends the SIGTERM handler there. When
    [pool.end()] rejects, the handler throws its error: [quit] is never
    issued on the cache client and [process.exit] is never called. When
    [quit] rejects, the handler throws its error and [process.exit] is never
    called. The handler exits, with code 0, only when every release it
    issued resolved; it never returns. *)
Theorem on_SIGTERM_rejections (w : World) :
  let r := on_SIGTERM w in
  (forall p e,
     pool w = Some p -> store_reply_at w 0 = inl e ->
     outcome r = Thrown e /\
     pool_ends (emitted r) = [false] /\
     cache_commands (emitted r) = [] /\
     exits (emitted r) = []) /\
  (forall c e,
     (forall p, pool w = Some p -> exists v, store_reply_at w 0 = inr v) ->
     guarded_client (after_store_release w) = Some c ->
     cache_error_at w 0 = Some e ->
     outcome r = Thrown e /\
     cache_commands (emitted r) = [(CmdQuit, true)] /\
     exits (emitted r) = []) /\
  (outcome r = Exited 0 ->
     exits (emitted r) = [0] /\
     Forall (eq true) (pool_ends (emitted r)) /\
     (forall p, pool w = Some p -> exists v, store_reply_at w 0 = inr v) /\
     (forall c, guarded_client (after_store_release w) = Some c ->
                cache_error_at w 0 = None)) /\
  (outcome r = Exited 0 \/ exists e, outcome r = Thrown e).
Proof.
  cbn zeta. rewrite on_SIGTERM_run.
  pose proof (cache_error_after_store_release w 0) as Hce.
  unfold after_store_release in *.
  destruct (pool w) as [p|]; [destruct (store_reply_at w 0) as [e|v]|].
  - split; [|split; [|split]].
    + intros p' e' _ [= <-]. repeat split.
    + intros c e' Hs _ _. destruct (Hs p eq_refl) as [v Hv]. discriminate.
    + discriminate.
    + right. eauto.
  - cbn zeta. rewrite Hce.
    destruct (guarded_client (after_store_call w)) as [c|];
      [destruct (cache_error_at w 0) as [e|]|]; cbn.
    + split; [intros ? ? _ [=]|]. split; [|split].
      * intros c' e' _ _ [= <-]. repeat split.
      * discriminate.
      * right. eauto.
    + split; [intros ? ? _ [=]|]. split; [|split].
      * intros c' e' _ _ [=].
      * intros _. split; [reflexivity|]. split; [repeat constructor|].
        split; [eauto|reflexivity].
      * left. reflexivity.
    + split; [intros ? ? _ [=]|]. split; [|split].
      * intros c' e' _ [=].
      * intros _. split; [reflexivity|]. split; [repeat constructor|].
        split; [eauto|]. intros ? [=].
      * left. reflexivity.
  - cbn zeta.
    destruct (guarded_client w) as [c|];
      [destruct (cache_error_at w 0) as [e|]|]; cbn.
    + split; [intros ? ? [=]|]. split; [|split].
      * intros c' e' _ _ [= <-]. repeat split.
      * discriminate.
      * right. eauto.
    + split; [intros ? ? [=]|]. split; [|split].
      * intros c' e' _ _ [=].
      * intros _. split; [reflexivity|]. split; [constructor|].
        split; [intros ? [=]|reflexivity].
      * left. reflexivity.
    + split; [intros ? ? [=]|]. split; [|split].
      * intros c' e' _ [=].
      * intros _. split; [reflexivity|]. split; [constructor|].
        split; [intros ? [=]|]. intros ? [=].
      * left. reflexivity.
Qed.

End ShutdownMore.

(** ** The handles over the life of the server *)

Section Lifetime.
Context `{JsRuntime}.

Lemma handlers_keep_handles (h : Request -> M Response) (req : Request)
    (w : World) :
  In h handlers -> same_handles w (after (h req w)).
Proof.
  intros Hin.
  assert (Hw : serves_within same_handles (h req)).
  { cbn in Hin. destruct Hin as [<-|[<-|[<-|[<-|[]]]]];
      [apply health_within|apply ready_within|apply api_health_within
      |apply api_users_within];
      intros;
      first [solve [repeat split]
            | solve [eapply same_handles_trans; eauto]]. }
  apply Hw.
Qed.

Lemma db_loop_no_warning maxRetries retryDelay (fuel : nat) :
  forall attempt lastError w,
  no_redis_warnings
    (emitted (db_loop fuel maxRetries retryDelay attempt lastError w)) = [].
Proof.
  induction fuel as [|fuel IH]; intros attempt lastError w; cbn [db_loop].
  - reflexivity.
  - destruct (attempt <=? maxRetries); [|reflexivity].
    destruct (store_reply_at w 0) as [e|v] eqn:Hr.
    + rewrite (bind_returned _ _ _ _ _ _ (db_attempt_fails _ _ _ _ _ Hr)).
      cbn [outcome after emitted]. autorewrite with readers. rewrite IH.
      destruct (attempt <? maxRetries); reflexivity.
    + rewrite (bind_returned _ _ _ _ _ _ (db_attempt_succeeds _ _ _ _ _ Hr)).
      reflexivity.
Qed.

(** When startup opens the listener, the store handle is set, and the cache
    handle is [null] exactly when startup has warned that it goes on without
    the cache. *)
Lemma main_started (w0 : World) :
  outcome (main w0) = Returned tt ->
  (exists p, pool (after (main w0)) = Some p) /\
  (redisClient (after (main w0)) = None <->
   no_redis_warnings (emitted (main w0)) = [tt]).
Proof.
  intros Hret.
  destruct (connectToDatabaseWithRetry_cases w0)
    as (_ & _ & _ & [(p & pre & Ho & _)|(e & Ho)]).
  2: { assert (Hrun : connectToDatabaseWithRetry w0 =
                      mkRun (Thrown e) (after (connectToDatabaseWithRetry w0))
                        (emitted (connectToDatabaseWithRetry w0)))
         by (rewrite <- Ho; apply run_eta).
       rewrite (main_failed _ _ _ _ Hrun) in Hret. discriminate. }
  set (db := connectToDatabaseWithRetry w0) in *.
  assert (Hrun : connectToDatabaseWithRetry w0 =
                 mkRun (Returned p) (after db) (emitted db))
    by (rewrite <- Ho; apply run_eta).
  assert (Hdbw : no_redis_warnings (emitted db) = []).
  { unfold db, connectToDatabaseWithRetry.
    erewrite bind_returned by reflexivity. cbn [outcome after emitted app].
    apply db_loop_no_warning. }
  destruct (connectToRedisWithRetry_returns (set_pool (Some p) (after db)))
    as ((c & Hrc) & _ & _ & _ & Hp & _).
  destruct (redis_loop_accounting 3 3000 3 1 (set_pool (Some p) (after db)))
    as (_ & _ & _ & _ & _ & _ & _ & _ & Hverdict); [lia|].
  change (redis_loop 3 3 3000 1 (set_pool (Some p) (after db)))
    with (connectToRedisWithRetry (set_pool (Some p) (after db))) in *.
  cbn zeta in Hverdict.
  rewrite (main_serving _ _ _ _ _ Hrun Hrc). cbn [after emitted].
  rewrite app_listen_run. cbn [emitted set_redisClient pool redisClient].
  split; [exists p; rewrite Hp; reflexivity|].
  autorewrite with readers. rewrite Hdbw.
  destruct Hverdict as [[Hnone ->]|[Hsome ->]].
  - rewrite Hrc in Hnone. injection Hnone as ->. split; reflexivity.
  - rewrite Hrc in Hsome. injection Hsome as ->. split; discriminate.
Qed.

Lemma serving_from_handles (w0 w : World) :
  serving_from w0 w -> same_handles (after (main w0)) w.
Proof.
  induction 1 as [Hret|h req w Hin Hs IH|ms w Hs IH].
  - apply same_handles_refl.
  - eapply same_handles_trans; [exact IH|].
    apply handlers_keep_handles. exact Hin.
  - eapply same_handles_trans; [exact IH|]. repeat split.
Qed.

Lemma serving_from_started (w0 w : World) :
  serving_from w0 w -> outcome (main w0) = Returned tt.
Proof. induction 1; assumption. Qed.

(** X11. The store handle for life. At any time while the server serves
    requests one after another, [pool] and [redisClient], the environment
    and the scripts of the outside world are the ones startup left when it
    opened the listener, and [pool] is set. Hence [/api/users] never answers
    503, and [/ready] and [/api/health] never report the database as not
    initialised. *)
Theorem serving_keeps_handles (w0 w : World) :
  serving_from w0 w ->
  same_handles (after (main w0)) w /\
  (exists p, pool w = Some p) /\
  forall req,
    (exists resp,
       outcome (api_users req w) = Returned resp /\ res_status resp <> 503) /\
    (exists code h,
       outcome (ready req w) = Returned (res_status_json code (BodyHealth h)) /\
       hc_checks h !! "database" <> Some (check_status "Not Initialized")) /\
    (exists h,
       outcome (api_health req w) = Returned (res_json (BodyHealth h)) /\
       hc_checks h !! "database" <> Some (check_status "Not Initialized")).
Proof.
  intros Hs.
  pose proof (serving_from_handles w0 w Hs) as Hh.
  destruct (main_started w0 (serving_from_started w0 w Hs)) as [[p Hp] _].
  assert (Hpw : pool w = Some p).
  { destruct Hh as (Hpool & _). rewrite Hpool. exact Hp. }
  split; [exact Hh|]. split; [eauto|]. intros req.
  assert (Hdb : database_check w <> check_status "Not Initialized").
  { unfold database_check. rewrite Hpw.
    destruct (store_reply_at w 0); discriminate. }
  split; [|split].
  - pose proof (api_users_run req w) as Hrun. rewrite Hpw in Hrun.
    destruct (cached_users w) as [v|];
      [|destruct (store_reply_at w 0) as [e|rows]];
      destruct Hrun as (ev & -> & _); eexists; (split; [reflexivity|]);
      discriminate.
  - destruct (ready_response req w) as (w1 & ev1 & -> & _).
    do 2 eexists. split; [reflexivity|].
    rewrite health_report_database. congruence.
  - destruct (api_health_response req w) as (w1 & ev1 & -> & _).
    eexists. split; [reflexivity|].
    rewrite health_report_database. congruence.
Qed.

(** X12. A cache given up at startup is given up for life. When startup has
    logged that it goes on without the cache, [redisClient] is [null] at any
    time while the server serves: [/api/users], [/ready] and [/api/health]
    never issue a command on the cache, every read of [/api/users] queries
    the store once, and [/api/health] reports the cache as not available. *)
Theorem cache_given_up_for_life (w0 w : World) :
  serving_from w0 w ->
  no_redis_warnings (emitted (main w0)) = [tt] ->
  redisClient w = None /\
  forall req,
    cache_commands (emitted (api_users req w)) = [] /\
    length (store_calls (emitted (api_users req w))) = 1%nat /\
    cache_commands (emitted (ready req w)) = [] /\
    cache_commands (emitted (api_health req w)) = [] /\
    exists h,
      outcome (api_health req w) = Returned (res_json (BodyHealth h)) /\
      hc_checks h !! "redis" = Some (check_status "Not Available").
Proof.
  intros Hs Hwarn.
  pose proof (serving_from_handles w0 w Hs) as Hh.
  pose proof (serving_from_started w0 w Hs) as Hret.
  destruct (main_started w0 Hret) as [[p Hp] Hnone].
  apply Hnone in Hwarn.
  assert (Hpw : pool w = Some p).
  { destruct Hh as (Hpool & _). rewrite Hpool. exact Hp. }
  assert (Hcw : redisClient w = None).
  { destruct Hh as (_ & Hc & _). rewrite Hc. exact Hwarn. }
  assert (Hg : forall w', redisClient w' = None -> guarded_client w' = None).
  { intros w' Hw'. unfold guarded_client. rewrite Hw'. reflexivity. }
  assert (Hg1 : guarded_client (after_database_check w) = None).
  { apply Hg. unfold after_database_check. rewrite Hpw. exact Hcw. }
  split; [exact Hcw|]. intros req.
  destruct (ready_effects req w) as [_ Her].
  destruct (api_health_effects req w) as [_ Hea].
  rewrite Her, Hea. unfold health_events. rewrite Hpw, Hg1.
  assert (Hmiss : cached_users w = None).
  { unfold cached_users. rewrite (Hg w Hcw). reflexivity. }
  rewrite api_users_trace, Hpw, Hmiss.
  destruct (users_cache_read_run req (now w) w) as (ev1 & Hr1 & Hs1 & Hc1).
  rewrite (Hg w Hcw) in Hc1. rewrite Hr1. cbn [emitted].
  split; [|split; [|split; [reflexivity|split; [reflexivity|]]]].
  - destruct (store_reply_at w 0) as [e|rows].
    + change (EvTimerStart :: ev1 ++ ?l) with ([EvTimerStart] ++ ev1 ++ l).
      autorewrite with readers. rewrite Hc1. reflexivity.
    + destruct (users_cache_write_run rows (before_cache_write w))
        as (ev2 & Hr2 & Hs2 & Hc2).
      rewrite Hr2. cbn [emitted].
      replace (guarded_client (before_cache_write w)) with (@None RedisClient)
        in Hc2.
      2: { symmetry. apply Hg. unfold before_cache_write, after_cache_read.
           rewrite (Hg w Hcw). exact Hcw. }
      change (EvTimerStart :: ev1 ++ ?x :: ev2 ++ ?l)
        with ([EvTimerStart] ++ ev1 ++ [x] ++ ev2 ++ l).
      autorewrite with readers. rewrite Hc1, Hc2. reflexivity.
  - destruct (store_reply_at w 0) as [e|rows].
    + change (EvTimerStart :: ev1 ++ ?l) with ([EvTimerStart] ++ ev1 ++ l).
      autorewrite with readers. rewrite Hs1. reflexivity.
    + destruct (users_cache_write_run rows (before_cache_write w))
        as (ev2 & Hr2 & Hs2 & Hc2).
      rewrite Hr2. cbn [emitted].
      change (EvTimerStart :: ev1 ++ ?x :: ev2 ++ ?l)
        with ([EvTimerStart] ++ ev1 ++ [x] ++ ev2 ++ l).
      autorewrite with readers. rewrite Hs1, Hs2. reflexivity.
  - destruct (api_health_response req w) as (w1 & ev1' & -> & _).
    eexists. split; [reflexivity|].
    rewrite health_report_redis. unfold redis_check. rewrite Hg1.
    reflexivity.
Qed.

End Lifetime.

(** ** The theorems at the sample worlds *)

Lemma sample_stringify_truthy (v : @JsValue sampleRuntime) :
  @JSON_stringify sampleRuntime v <> "".
Proof. discriminate. Qed.

Lemma sample_parse_stringify (v : @JsValue sampleRuntime) :
  exists v', @JSON_parse sampleRuntime (JSON_stringify v) = inr v' /\
             @JSON_stringify sampleRuntime v' = JSON_stringify v.
Proof. exists v. split; reflexivity. Qed.

(** Readiness with the cache connected and with no cache client. *)
Lemma ready_verdict_witness :
  exists r1 r2 h1 h2,
    outcome (ready sample_request serving) = Returned r1 /\
    outcome (ready sample_request serving_no_cache) = Returned r2 /\
    res_body r1 = BodyHealth h1 /\ res_body r2 = BodyHealth h2 /\
    res_status r1 = res_status r2 /\
    hc_status h1 = hc_status h2 /\
    hc_timestamp h1 = hc_timestamp h2 /\
    forall k, k <> "redis" -> hc_checks h1 !! k = hc_checks h2 !! k.
Proof.
  destruct (@ready_verdict sampleRuntime sample_request) as [_ Hsame].
  apply Hsame. repeat split.
Defined.

(** A read whose cache [get] rejects, and a read whose [setEx] rejects. *)
Lemma cache_errors_absorbed_witness :
  (let r := api_users sample_request serving_cache_down in
   outcome r = Returned (res_json (BodyJson sample_rows)) /\
   store_calls (emitted r) = [true]) /\
  (let r := api_users sample_request serving_populate_fails in
   outcome r = Returned (res_json (BodyJson sample_rows)) /\
   redis_data (after r) = ∅).
Proof.
  split.
  - destruct (cache_errors_absorbed sample_request serving_cache_down
                sample_pool eq_refl) as (_ & Hget & _).
    apply (Hget sample_client refused sample_rows); reflexivity.
  - destruct (cache_errors_absorbed sample_request serving_populate_fails
                sample_pool eq_refl) as (_ & _ & Hset).
    destruct (Hset sample_rows eq_refl eq_refl) as [Ho Hd].
    split; [exact Ho|].
    apply (Hd sample_client refused); reflexivity.
Defined.

(** A read that finds the rows cached, and two reads a second apart. *)
Lemma cache_aside_reads_witness :
  (let r := api_users sample_request serving_cached in
   (exists v, outcome r = Returned (res_json (BodyJson v)) /\
              @JSON_stringify sampleRuntime v = JSON_stringify sample_rows) /\
   store_calls (emitted r) = []) /\
  (let r1 := api_users sample_request serving in
   let r2 := api_users sample_request (suspend 1000 (after r1)) in
   outcome r1 = Returned (res_json (BodyJson sample_rows)) /\
   store_calls (emitted r1) = [true] /\
   (exists v, outcome r2 = Returned (res_json (BodyJson v)) /\
              @JSON_stringify sampleRuntime v = JSON_stringify sample_rows) /\
   store_calls (emitted r2) = [] /\
   store_calls (emitted r1 ++ emitted r2) = [true]).
Proof.
  destruct (@cache_aside_reads sampleRuntime sample_stringify_truthy
              sample_parse_stringify sample_request) as [Hhit Htwo].
  split.
  - apply (Hhit serving_cached sample_pool sample_client sample_rows 60000);
      reflexivity.
  - apply (Htwo serving sample_pool sample_client sample_rows 1000);
      reflexivity.
Defined.

(** A read while the store rejects the query. *)
Lemma api_users_status_witness :
  exists resp,
    outcome (api_users sample_request serving_store_down) = Returned resp /\
    res_status resp = 500 /\
    res_body resp = BodyError "Internal server error".
Proof.
  destruct (api_users_status sample_request serving_store_down)
    as (resp & Ho & _ & H500 & _ & Hbody & _).
  assert (Hs : res_status resp = 500) by (apply H500; reflexivity).
  exists resp. auto.
Defined.

(** Detailed health while the store rejects the probe, and while the cache
    rejects the ping. *)
Lemma api_health_always_200_witness :
  (exists h,
     outcome (api_health sample_request serving_store_down) =
       Returned {| res_status := 200; res_body := BodyHealth h |} /\
     hc_checks h !! "database" = Some (check_error "connect ECONNREFUSED") /\
     hc_status h = "Error") /\
  (exists h,
     outcome (api_health sample_request serving_cache_down) =
       Returned {| res_status := 200; res_body := BodyHealth h |} /\
     hc_checks h !! "redis" = Some (check_error "connect ECONNREFUSED") /\
     hc_status h = "OK").
Proof.
  split.
  - destruct (api_health_always_200 sample_request serving_store_down)
      as (h & Ho & _ & _ & _ & Hdb & _).
    destruct (Hdb sample_pool refused eq_refl eq_refl) as [Hd Hs].
    exists h. auto.
  - destruct (api_health_always_200 sample_request serving_cache_down)
      as (h & Ho & Hs & _ & _ & _ & Hrd).
    exists h. split; [exact Ho|]. split; [|exact Hs].
    apply (Hrd sample_client refused); reflexivity.
Defined.

(** Serving with a client whose liveness flag is down. *)
Lemma closed_client_is_absent_witness :
  same_as_absent sample_client (api_users sample_request) serving_flag_down /\
  same_as_absent sample_client (ready sample_request) serving_flag_down /\
  same_as_absent sample_client (api_health sample_request) serving_flag_down /\
  same_as_absent sample_client on_SIGTERM serving_flag_down /\
  (exists code h,
     outcome (ready sample_request
                (set_redisClient (Some sample_client) serving_flag_down)) =
       Returned (res_status_json code (BodyHealth h)) /\
     hc_checks h !! "redis" = Some (check_status "Not Available")) /\
  (exists h,
     outcome (api_health sample_request
                (set_redisClient (Some sample_client) serving_flag_down)) =
       Returned (res_json (BodyHealth h)) /\
     hc_checks h !! "redis" = Some (check_status "Not Available")).
Proof.
  destruct (@closed_client_is_absent sampleRuntime sample_request)
    as [_ Hclosed].
  apply (Hclosed serving_flag_down sample_client).
  intros t. reflexivity.
Defined.

(** ** More theorems at the sample worlds *)

(** The cache answers on the second attempt; the cache never answers. *)
Lemma connectToRedisWithRetry_attempts_witness :
  (let r := connectToRedisWithRetry (sample_boot "3" 0 1) in
   outcome r = Returned (Some sample_client) /\
   cache_connects (emitted r) = [false; true] /\
   waits (emitted r) = [3000] /\
   no_redis_warnings (emitted r) = []) /\
  (let r := connectToRedisWithRetry (sample_boot "3" 0 3) in
   waits (emitted r) = [3000; 3000] /\
   no_redis_warnings (emitted r) = [tt]).
Proof.
  split.
  - destruct (@connectToRedisWithRetry_attempts sampleRuntime
                (sample_boot "3" 0 1)) as (_ & Hok & _).
    apply (Hok 1%nat).
    + lia.
    + intros [|i] Hi; [eexists; reflexivity|lia].
    + reflexivity.
  - destruct (@connectToRedisWithRetry_attempts sampleRuntime
                (sample_boot "3" 0 3)) as (_ & _ & Hfail).
    apply Hfail.
    intros [|[|[|i]]] Hi; try (eexists; reflexivity). lia.
Defined.

(** Startup while the store rejects every probe, and while it answers. *)
Lemma cache_attempted_after_store_witness :
  cache_connects (emitted (main (sample_boot "3" 3 0))) = [] /\
  store_calls
    (emitted
       (connectToRedisWithRetry
          (set_pool (Some sample_pool)
             (after (connectToDatabaseWithRetry (sample_boot "3" 0 0)))))) = [].
Proof.
  split.
  - destruct (@cache_attempted_after_store sampleRuntime (sample_boot "3" 3 0))
      as (_ & Hthrown & _).
    destruct (Hthrown _ eq_refl) as (_ & _ & Hc). exact Hc.
  - destruct (@cache_attempted_after_store sampleRuntime (sample_boot "3" 0 0))
      as (_ & _ & Hreturned).
    destruct (Hreturned sample_pool eq_refl) as (_ & Hs). exact Hs.
Defined.

(** Startup with [DATABASE_RETRY_ATTEMPTS=-2]. *)
Lemma negative_budget_exits_witness :
  main (sample_boot "-2" 0 0) =
    mkRun (Exited 1) (sample_boot "-2" 0 0)
      [EvLog (ErrInitFailed
                (mkError "TypeError"
                   "Cannot read properties of undefined (reading 'message')"));
       EvExit 1].
Proof.
  apply (@negative_budget_exits sampleRuntime (sample_boot "-2" 0 0)).
  reflexivity.
Defined.

(** Three attempts allowed and the store rejects them all. *)
Lemma connectToDatabaseWithRetry_budget_witness :
  (1 <= length (store_calls
                  (emitted (connectToDatabaseWithRetry
                              (sample_boot "3" 3 0)))))%nat.
Proof.
  destruct (@connectToDatabaseWithRetry_budget sampleRuntime
              (sample_boot "3" 3 0)) as (_ & Hone & _).
  apply Hone. vm_compute. discriminate.
Defined.

(** A first read with an empty cache. *)
Lemma api_users_populates_witness :
  let r := api_users sample_request serving in
  outcome r = Returned (res_json (BodyJson sample_rows)) /\
  In (CmdSetEx "users:all" 300 (@JSON_stringify sampleRuntime sample_rows),
      true)
    (cache_commands (emitted r)) /\
  redis_data (after r) =
    <["users:all" := (@JSON_stringify sampleRuntime sample_rows,
                      now (after r) + 300000)]> (redis_data serving) /\
  forall gap,
    live_entry "users:all" (suspend gap (after r)) =
      if gap <? 300000
      then Some (@JSON_stringify sampleRuntime sample_rows) else None.
Proof.
  apply (@api_users_populates sampleRuntime sample_request serving sample_pool
           sample_client sample_rows); reflexivity.
Defined.

(** A second read exactly 300 seconds after the first. *)
Lemma cache_entry_expires_witness :
  let r1 := api_users sample_request serving in
  let r2 := api_users sample_request (suspend 300000 (after r1)) in
  outcome r2 = Returned (res_json (BodyJson sample_rows)) /\
  store_calls (emitted r2) = [true].
Proof.
  assert (Hpos : forall i, 0 <= rd_elapsed (redis_reply serving i))
    by (intros i; vm_compute; discriminate).
  assert (Hgap : 300000 <= 300000) by lia.
  destruct (@cache_entry_expires sampleRuntime sample_request serving
              sample_pool sample_client sample_rows 300000
              eq_refl eq_refl eq_refl eq_refl eq_refl Hpos Hgap)
    as [_ Hagain].
  exact Hagain.
Defined.

(** Shutdown when [pool.end()] rejects, and when [quit] rejects. *)
Lemma on_SIGTERM_rejections_witness :
  (let r := on_SIGTERM serving_store_down in
   outcome r = Thrown refused /\
   pool_ends (emitted r) = [false] /\
   cache_commands (emitted r) = [] /\
   exits (emitted r) = []) /\
  (let r := on_SIGTERM serving_cache_down in
   outcome r = Thrown refused /\
   cache_commands (emitted r) = [(CmdQuit, true)] /\
   exits (emitted r) = []).
Proof.
  split.
  - destruct (@on_SIGTERM_rejections sampleRuntime serving_store_down)
      as (Hstore & _).
    apply (Hstore sample_pool refused); reflexivity.
  - destruct (@on_SIGTERM_rejections sampleRuntime serving_cache_down)
      as (_ & Hcache & _).
    apply (Hcache sample_client refused); try reflexivity.
    intros p _. exists sample_rows. reflexivity.
Defined.

(** After startup and one read of the users. *)
Lemma serving_keeps_handles_witness :
  let w :=
    after (api_users sample_request (after (main (sample_boot "3" 0 0)))) in
  exists resp,
    outcome (api_users sample_request w) = Returned resp /\
    res_status resp <> 503.
Proof.
  destruct (@serving_keeps_handles sampleRuntime (sample_boot "3" 0 0)
              (after (api_users sample_request
                        (after (main (sample_boot "3" 0 0))))))
    as (_ & _ & Hreq).
  - apply serving_handled.
    + do 3 right. left. reflexivity.
    + apply serving_listening. reflexivity.
  - destruct (Hreq sample_request) as (Husers & _). exact Husers.
Defined.

(** After a startup during which the cache rejected the three attempts, a
    readiness probe and a minute. *)
Lemma cache_given_up_for_life_witness :
  let w0 := sample_boot "3" 0 3 in
  let w := suspend 60000 (after (ready sample_request (after (main w0)))) in
  redisClient w = None /\
  cache_commands (emitted (api_users sample_request w)) = [] /\
  length (store_calls (emitted (api_users sample_request w))) = 1%nat.
Proof.
  destruct (@cache_given_up_for_life sampleRuntime (sample_boot "3" 0 3)
              (suspend 60000
                 (after (ready sample_request
                           (after (main (sample_boot "3" 0 3)))))))
    as (Hnone & Hreq).
  - apply serving_waited. apply serving_handled.
    + right. left. reflexivity.
    + apply serving_listening. reflexivity.
  - reflexivity.
  - destruct (Hreq sample_request) as (Hc & Hs & _). auto.
Defined.

(** ** Sample runs *)

#[local] Existing Instance sampleRuntime.

(** The store answers on the third attempt: three probes, two waits, then
    the cache and the listener. *)
Example boot_on_third_attempt :
  let r := main (sample_boot "3" 2 0) in
  store_calls (emitted r) = [false; false; true] /\
  waits (emitted r) = [5000; 5000] /\
  cache_connects (emitted r) = [true] /\
  listens (emitted r) = [inr 5000] /\
  exits (emitted r) = [].
Proof. repeat split. Qed.

(** An unset, zero or unreadable budget is ten attempts. *)
Example boot_default_budget :
  db_maxRetries (sample_env "0") = 10 /\
  db_maxRetries (sample_env "many") = 10 /\
  let r := connectToDatabaseWithRetry (sample_boot "0" 11 0) in
  store_calls (emitted r) = replicate 10 false /\
  waits (emitted r) = replicate 9 5000.
Proof. repeat split. Qed.

(** A negative budget: no attempt, and the final [throw] is a [TypeError]. *)
Example boot_negative_budget :
  connectToDatabaseWithRetry (sample_boot "-2" 0 0) =
  mkRun (Thrown (mkError "TypeError"
                   "Cannot read properties of undefined (reading 'message')"))
    (sample_boot "-2" 0 0) [].
Proof. reflexivity. Qed.

(** A first read goes to the store and fills the cache. *)
Example first_read :
  let r := api_users sample_request serving in
  outcome r = Returned (res_json (BodyJson sample_rows)) /\
  emitted r =
    [EvTimerStart; EvRedis (CmdGet "users:all") true true;
     EvQuery "SELECT * FROM users ORDER BY id" true;
     EvRedis (CmdSetEx "users:all" 300 "[1,2,3]") true true;
     EvLog LogServingFromDb; EvObserve "select" "users" 11;
     EvTimerEnd "GET" "/api/users" 200] /\
  redis_data (after r) !! "users:all" = Some ("[1,2,3]", 350011).
Proof. repeat split. Qed.

(** A second read one second later is served from the cache; 300 seconds
    later the entry has expired and the store is queried again. *)
Example second_read :
  let r1 := api_users sample_request serving in
  emitted (api_users sample_request (suspend 1000 (after r1))) =
    [EvTimerStart; EvRedis (CmdGet "users:all") true true;
     EvLog LogServingFromCache; EvTimerEnd "GET" "/api/users" 200;
     EvObserve "cache_hit" "users" 2] /\
  store_calls (emitted (api_users sample_request (suspend 300000 (after r1)))) =
    [true].
Proof. repeat split. Qed.

(** Shutdown while serving, and shutdown when [pool.end()] rejects. *)
Example shutdown_serving :
  on_SIGTERM serving =
  mkRun (Exited 0) (after_cache_call (after_store_call serving))
    [EvLog LogSigterm; EvPoolEnd true; EvLog LogDbClosed;
     EvRedis CmdQuit true true; EvLog LogRedisClosed; EvExit 0].
Proof. reflexivity. Qed.

Example shutdown_store_rejects :
  on_SIGTERM serving_store_down =
  mkRun (Thrown refused) (after_store_call serving_store_down)
    [EvLog LogSigterm; EvPoolEnd false].
Proof. reflexivity. Qed.
